(** * image-processing-api: key derivation, cache lookup and request handling

    A shallow embedding of
      - [src/utils/imageProcessor.ts]  (generateProcessedFilename,
        ensureOutputFolderExists, processImage, imageExists),
      - [src/middleware/cache.ts]      (generateCacheKey, checkCache,
        cacheMiddleware),
      - [src/routes/images/index.ts]   (the GET / handler),
    together with the parts of the Node.js runtime these functions call
    ([path.parse], [path.join], [path.resolve], [parseInt], template
    literals, truthiness).

    Conventions of the model.
      - A JavaScript string is a [string]; '/' and '.' are the only
        characters the code inspects.
      - A JavaScript number produced by [parseInt] or written in a request is
        either [NaN] or an integer, kept as a [Z]; an integer is printed in
        decimal, which is what a template literal does for every integer
        below 10^21 in magnitude.
      - The file system is a finite map from absolute paths to nodes; the
        behaviour of the environment that the code cannot control (storage
        faults, directory creation failure, the image codec) is an oracle
        [Env] over which every theorem quantifies.
      - Asynchronous functions are run to completion in program order; an
        exception is the string that [`${error}`] prints for the thrown
        value. Console output is not part of the model.
      - Query parameters are strings or missing; paths use the POSIX
        separator. *)

From stdpp Require Import base strings pretty gmap list.
From Stdlib Require Import ZArith Ascii String Lia.

Open Scope string_scope.
Open Scope list_scope.

(** ** JavaScript values used by the code *)

(** [number]: the values [options.width] and [options.height] can hold. *)
Inductive number : Type :=
  | NaN
  | Num (z : Z).

(** Truthiness of a number: [NaN], [0] and [-0] are falsy. *)
Definition truthy_number (n : number) : bool :=
  match n with
  | NaN => false
  | Num z => negb (z =? 0)%Z
  end.

(** Truthiness of a string: only the empty string is falsy. *)
Definition truthy_string (s : string) : bool :=
  match s with
  | EmptyString => false
  | String _ _ => true
  end.

(** Truthiness of an optional property ([undefined] is falsy). *)
Definition truthy_opt {A} (t : A -> bool) (o : option A) : bool :=
  match o with
  | None => false
  | Some a => t a
  end.

(** [String(n)] as used by a template literal. *)
Definition number_to_string (n : number) : string :=
  match n with
  | NaN => "NaN"
  | Num z => pretty z
  end.

(** [isNaN(n)] and [n <= 0] on numbers (every comparison with NaN is
    false). *)
Definition isNaN (n : number) : bool :=
  match n with NaN => true | Num _ => false end.

Definition le_zero (n : number) : bool :=
  match n with NaN => false | Num z => (z <=? 0)%Z end.

(** *** [parseInt(s)] with no radix argument *)

Module ParseInt.

(** White space and line terminators skipped in front of the number
    (the ASCII ones: TAB, LF, VT, FF, CR, SP). *)
Definition is_white (c : ascii) : bool :=
  let n := nat_of_ascii c in
  ((n =? 9) || (n =? 10) || (n =? 11) || (n =? 12) || (n =? 13)
   || (n =? 32))%nat.

Fixpoint skip_white (s : string) : string :=
  match s with
  | String c s' => if is_white c then skip_white s' else s
  | EmptyString => EmptyString
  end.

(** Value of a character as a digit, when it is one in base 36. *)
Definition digit_value (c : ascii) : option Z :=
  let n := Z.of_nat (nat_of_ascii c) in
  if (48 <=? n)%Z && (n <=? 57)%Z then Some (n - 48)%Z
  else if (97 <=? n)%Z && (n <=? 122)%Z then Some (n - 87)%Z
  else if (65 <=? n)%Z && (n <=? 90)%Z then Some (n - 55)%Z
  else None.

(** Longest prefix of digits of the radix, accumulated left to right;
    [None] when the prefix is empty. *)
Fixpoint digits (radix : Z) (s : string) (acc : option Z) : option Z :=
  match s with
  | EmptyString => acc
  | String c s' =>
      match digit_value c with
      | Some d =>
          if (d <? radix)%Z
          then digits radix s' (Some (default 0%Z acc * radix + d)%Z)
          else acc
      | None => acc
      end
  end.

Definition strip_sign (s : string) : Z * string :=
  match s with
  | String "-"%char s' => ((-1)%Z, s')
  | String "+"%char s' => (1%Z, s')
  | _ => (1%Z, s)
  end.

Definition strip_hex (s : string) : Z * string :=
  match s with
  | String "0"%char (String "x"%char s') => (16%Z, s')
  | String "0"%char (String "X"%char s') => (16%Z, s')
  | _ => (10%Z, s)
  end.

Definition parseInt (input : string) : number :=
  let '(sign, s1) := strip_sign (skip_white input) in
  let '(radix, s2) := strip_hex s1 in
  match digits radix s2 None with
  | None => NaN
  | Some v => Num (sign * v)
  end.

End ParseInt.

(** ** Node's [path] module (POSIX flavour) *)

Module NodePath.

Definition CHAR_FORWARD_SLASH : ascii := "/".
Definition CHAR_DOT : ascii := ".".

Definition is_slash (c : ascii) : bool := bool_decide (c = CHAR_FORWARD_SLASH).
Definition is_dot (c : ascii) : bool := bool_decide (c = CHAR_DOT).

(** [s.slice(a, b)] for indices within the string. *)
Definition slice (p : list ascii) (a b : nat) : list ascii :=
  take (b - a) (drop a p).

(** The object [path.parse] returns. *)
Record ParsedPath : Type := mkParsed {
  root : string;
  dir : string;
  base : string;
  ext : string;
  name : string
}.

(** The local variables of the scanning loop of [path.parse]; the
    sentinel -1 of [startDot] and [end] is [None]. *)
Record Scan : Type := mkScan {
  startDot : option nat;
  startPart : nat;
  end_ : option nat;
  matchedSlash : bool;
  preDotState : Z
}.

Definition scan_init : Scan :=
  {| startDot := None; startPart := 0; end_ := None;
     matchedSlash := true; preDotState := 0 |}.

(** One character that is not a separator, at index [i]. *)
Definition scan_char (code : ascii) (i : nat) (st : Scan) : Scan :=
  let st1 :=
    match end_ st with
    | None =>
        {| startDot := startDot st; startPart := startPart st;
           end_ := Some (i + 1); matchedSlash := false;
           preDotState := preDotState st |}
    | Some _ => st
    end in
  if is_dot code then
    match startDot st1 with
    | None =>
        {| startDot := Some i; startPart := startPart st1;
           end_ := end_ st1; matchedSlash := matchedSlash st1;
           preDotState := preDotState st1 |}
    | Some _ =>
        if negb (preDotState st1 =? 1)%Z
        then {| startDot := startDot st1; startPart := startPart st1;
                end_ := end_ st1; matchedSlash := matchedSlash st1;
                preDotState := 1 |}
        else st1
    end
  else
    match startDot st1 with
    | Some _ =>
        {| startDot := startDot st1; startPart := startPart st1;
           end_ := end_ st1; matchedSlash := matchedSlash st1;
           preDotState := (-1) |}
    | None => st1
    end.

(** [for (i = path.length - 1; i >= start; --i)]: [k] indices remain,
    the current one is [start + k - 1]. *)
Fixpoint scan_loop (p : list ascii) (start k : nat) (st : Scan) : Scan :=
  match k with
  | O => st
  | S k' =>
      let i := start + k' in
      match p !! i with
      | None => st
      | Some code =>
          if is_slash code then
            if negb (matchedSlash st) then
              {| startDot := startDot st; startPart := i + 1;
                 end_ := end_ st; matchedSlash := matchedSlash st;
                 preDotState := preDotState st |}
            else scan_loop p start k' st
          else scan_loop p start k' (scan_char code i st)
      end
  end.

Definition str (l : list ascii) : string := string_of_list_ascii l.

(** The part of [path.parse] that follows the loop. *)
Definition finish (p : list ascii) (isAbsolute : bool) (st : Scan)
  : ParsedPath :=
  let root_ := if isAbsolute then "/" else "" in
  let dir_ :=
    if (0 <? startPart st)%nat then str (slice p 0 (startPart st - 1))
    else if isAbsolute then "/" else "" in
  match end_ st with
  | None => mkParsed root_ dir_ "" "" ""
  | Some e =>
      let start' :=
        if (startPart st =? 0)%nat && isAbsolute then 1 else startPart st in
      match startDot st with
      | None =>
          mkParsed root_ dir_ (str (slice p start' e)) ""
                   (str (slice p start' e))
      | Some d =>
          if (preDotState st =? 0)%Z
             || ((preDotState st =? 1)%Z && (d =? e - 1)%nat
                 && (d =? startPart st + 1)%nat)
          then mkParsed root_ dir_ (str (slice p start' e)) ""
                        (str (slice p start' e))
          else mkParsed root_ dir_ (str (slice p start' e))
                        (str (slice p d e)) (str (slice p start' d))
      end
  end.

Definition parse_chars (p : list ascii) : ParsedPath :=
  match p with
  | [] => mkParsed "" "" "" "" ""
  | c0 :: _ =>
      let isAbsolute := is_slash c0 in
      let start := if isAbsolute then 1 else 0 in
      finish p isAbsolute
        (scan_loop p start (List.length p - start) scan_init)
  end.

(** [path.parse(path)] *)
Definition parse (path : string) : ParsedPath :=
  parse_chars (list_ascii_of_string path).

(** *** [normalizeString], [path.normalize], [path.join], [path.resolve] *)

(** The segments of a path between its separators. *)
Fixpoint split_slash (path : string) : list string :=
  match path with
  | EmptyString => [EmptyString]
  | String c rest =>
      if is_slash c then EmptyString :: split_slash rest
      else
        match split_slash rest with
        | seg :: segs => String c seg :: segs
        | [] => [String c EmptyString]
        end
  end.

(** One segment met by [normalizeString]: empty segments and "." are
    dropped; ".." removes the last segment kept so far, or is kept itself
    when there is none to remove and [allowAboveRoot] holds. *)
Definition norm_step (allowAboveRoot : bool) (res : list string)
    (seg : string) : list string :=
  if bool_decide (seg = "") || bool_decide (seg = ".") then res
  else if bool_decide (seg = "..") then
    match last res with
    | Some l =>
        if bool_decide (l = "..")
        then (if allowAboveRoot then res ++ [".."] else res)
        else removelast res
    | None => if allowAboveRoot then res ++ [".."] else res
    end
  else res ++ [seg].

Definition normalizeString (path : string) (allowAboveRoot : bool)
  : list string :=
  fold_left (norm_step allowAboveRoot) (split_slash path) [].

Definition starts_with_slash (path : string) : bool :=
  match path with
  | String c _ => is_slash c
  | EmptyString => false
  end.

Fixpoint ends_with_slash (path : string) : bool :=
  match path with
  | EmptyString => false
  | String c EmptyString => is_slash c
  | String _ rest => ends_with_slash rest
  end.

Definition normalize (path : string) : string :=
  match path with
  | EmptyString => "."
  | _ =>
      let isAbsolute := starts_with_slash path in
      let trailingSeparator := ends_with_slash path in
      let segs := normalizeString path (negb isAbsolute) in
      match segs with
      | [] =>
          if isAbsolute then "/"
          else if trailingSeparator then "./" else "."
      | _ =>
          let body :=
            String.concat "/" segs +:+ (if trailingSeparator then "/" else "")
          in
          if isAbsolute then "/" +:+ body else body
      end
  end.

(** [path.join(a, b)]: the non-empty arguments, joined by a separator,
    then normalized. *)
Definition join (a b : string) : string :=
  match a, b with
  | EmptyString, EmptyString => "."
  | _, EmptyString => normalize a
  | EmptyString, _ => normalize b
  | _, _ => normalize (a +:+ "/" +:+ b)
  end.

(** [path.resolve(from, to)] where [from] is an absolute path, as
    [__dirname] is: the current working directory is never consulted. *)
Definition resolve (from to : string) : string :=
  let resolvedPath :=
    if starts_with_slash to then to else from +:+ "/" +:+ to in
  "/" +:+ String.concat "/" (normalizeString resolvedPath false).

End NodePath.

(** [s.replace('.', '')]: the first dot of [s], if any, is removed. *)
Fixpoint replace_dot (s : string) : string :=
  match s with
  | EmptyString => EmptyString
  | String c s' =>
      if NodePath.is_dot c then s' else String c (replace_dot s')
  end.

(** [a || b] on strings. *)
Definition or_string (a b : string) : string :=
  if truthy_string a then a else b.

(** ** [config/types.ts] *)

Record ImageProcessingOptions : Type := mkOptions {
  filename : string;
  width : option number;
  height : option number;
  format : option string
}.

(** [`${n || 'auto'}`] for an optional number. *)
Definition or_auto (n : option number) : string :=
  match n with
  | Some v => if truthy_number v then number_to_string v else "auto"
  | None => "auto"
  end.

(** [options.format || path.parse(options.filename).ext.replace('.', '')
    || 'jpg'] *)
Definition extension_of (options : ImageProcessingOptions) : string :=
  or_string
    (or_string (default "" (format options))
               (replace_dot (NodePath.ext (NodePath.parse (filename options)))))
    "jpg".

(** [options.width || options.height ? `_${..}x${..}` : ''] *)
Definition dimensions_of (options : ImageProcessingOptions) : string :=
  if truthy_opt truthy_number (width options)
     || truthy_opt truthy_number (height options)
  then "_" +:+ or_auto (width options) +:+ "x" +:+ or_auto (height options)
  else "".

(** [utils/imageProcessor.ts], lines 43-56. *)
Definition generateProcessedFilename (options : ImageProcessingOptions)
  : string :=
  let fileNameWithoutExt := NodePath.name (NodePath.parse (filename options)) in
  let extension := extension_of options in
  let dimensions := dimensions_of options in
  fileNameWithoutExt +:+ dimensions +:+ "." +:+ extension.

(** [middleware/cache.ts], lines 27-40. *)
Definition generateCacheKey (options : ImageProcessingOptions) : string :=
  let fileNameWithoutExt := NodePath.name (NodePath.parse (filename options)) in
  let extension :=
    or_string
      (or_string (default "" (format options))
                 (replace_dot
                    (NodePath.ext (NodePath.parse (filename options)))))
      "jpg" in
  let dimensions :=
    if truthy_opt truthy_number (width options)
       || truthy_opt truthy_number (height options)
    then "_" +:+ or_auto (width options) +:+ "x" +:+ or_auto (height options)
    else "" in
  fileNameWithoutExt +:+ dimensions +:+ "." +:+ extension.

(** ** The world outside the program *)

(** What an absolute path names. *)
Inductive Node : Type :=
  | File (content : string)
  | Directory.

(** How the storage answers an existence probe of a path: normally, with
    an error that the runtime swallows ([fs.existsSync] then answers
    [false]), or with an error that is raised to the caller. Node's own
    [fs.existsSync] does not raise; [Loud] stands for any failure inside the
    [try] blocks that surround the probes. *)
Inductive Fault : Type :=
  | Healthy
  | Silent
  | Loud (error : string).

(** The [sharp] pipeline built by [processImage]. *)
Record Pipeline : Type := mkPipeline {
  source : string;
  resize : option (option number * option number);
  toFormat : option string
}.

(** What [toFile] does: it resolves after writing the encoded bytes to the
    output path, or it rejects, possibly after having started to write
    there ([residue]). *)
Inductive CodecOutcome : Type :=
  | Encoded (bytes : string)
  | Rejected (error : string) (residue : option string).

Record Env : Type := mkEnv {
  probe_fault : string -> Fault;
  mkdir_error : string -> option string;
  codec : gmap string Node -> Pipeline -> string -> CodecOutcome
}.

(** Observable actions, in program order. [CallProcessImage] marks the
    entry of [processImage]. *)
Inductive Event : Type :=
  | ExistsSync (path : string)
  | Access (path : string)
  | Mkdir (path : string)
  | ToFile (pipeline : Pipeline) (path : string)
  | CallProcessImage (options : ImageProcessingOptions).

(** ** Computations: file-system state, exceptions, trace *)

Inductive Outcome (A : Type) : Type :=
  | Return (a : A)
  | Throw (error : string).
Arguments Return {A} a.
Arguments Throw {A} error.

Definition M (A : Type) : Type :=
  gmap string Node -> Outcome A * gmap string Node * list Event.

Global Instance M_ret : MRet M := fun A a fs => (Return a, fs, []).

Global Instance M_bind : MBind M := fun A B k m fs =>
  match m fs with
  | (Return a, fs1, t1) =>
      match k a fs1 with
      | (r, fs2, t2) => (r, fs2, t1 ++ t2)
      end
  | (Throw e, fs1, t1) => (Throw e, fs1, t1)
  end.

Definition throw {A} (error : string) : M A :=
  fun fs => (Throw error, fs, []).

(** [throw new Error(message)]; printed, the value reads "Error: message". *)
Definition throw_Error {A} (message : string) : M A :=
  throw ("Error: " +:+ message).

(** [try { body } catch (error) { handler }] *)
Definition try_catch {A} (body : M A) (handler : string -> M A) : M A :=
  fun fs =>
    match body fs with
    | (Return a, fs1, t1) => (Return a, fs1, t1)
    | (Throw e, fs1, t1) =>
        match handler e fs1 with
        | (r, fs2, t2) => (r, fs2, t1 ++ t2)
        end
    end.

Definition outcome {A} (r : Outcome A * gmap string Node * list Event)
  : Outcome A := r.1.1.
Definition final_fs {A} (r : Outcome A * gmap string Node * list Event)
  : gmap string Node := r.1.2.
Definition events {A} (r : Outcome A * gmap string Node * list Event)
  : list Event := r.2.

(** *** Primitives of the runtime *)

Section Primitives.
Variable env : Env.

(** What a probe of [path] finds. *)
Definition present (fs : gmap string Node) (path : string) : bool :=
  bool_decide (is_Some (fs !! path)).

(** [fs.existsSync(path)] *)
Definition existsSync (path : string) : M bool := fun fs =>
  match probe_fault env path with
  | Healthy => (Return (present fs path), fs, [ExistsSync path])
  | Silent => (Return false, fs, [ExistsSync path])
  | Loud e => (Throw e, fs, [ExistsSync path])
  end.

(** [fs.promises.access(path, F_OK)]: rejects unless the path is found. *)
Definition access (path : string) : M unit := fun fs =>
  match probe_fault env path with
  | Healthy =>
      if present fs path then (Return tt, fs, [Access path])
      else (Throw ("Error: ENOENT: no such file or directory, access '"
                   +:+ path +:+ "'"), fs, [Access path])
  | Silent => (Throw "Error: EIO: i/o error, access", fs, [Access path])
  | Loud e => (Throw e, fs, [Access path])
  end.

(** [fs.promises.mkdir(path, { recursive: true })]. Only the directory
    itself is recorded: its parents are paths the program never looks at. *)
Definition mkdir (path : string) : M unit := fun fs =>
  match mkdir_error env path with
  | None => (Return tt, <[path := Directory]> fs, [Mkdir path])
  | Some e => (Throw e, fs, [Mkdir path])
  end.

(** [pipeline.toFile(path)] *)
Definition toFile (pipeline : Pipeline) (path : string) : M unit := fun fs =>
  match codec env fs pipeline path with
  | Encoded bytes =>
      (Return tt, <[path := File bytes]> fs, [ToFile pipeline path])
  | Rejected e None => (Throw e, fs, [ToFile pipeline path])
  | Rejected e (Some partial) =>
      (Throw e, <[path := File partial]> fs, [ToFile pipeline path])
  end.

Definition mark (e : Event) : M unit := fun fs => (Return tt, fs, [e]).

End Primitives.

(** ** [utils/imageProcessor.ts] *)

Module ImageProcessor.
Section Program.
Variable env : Env.
(** The directory that holds [utils/], [middleware/] and [routes/]. *)
Variable srcDir : string.

Definition dirname : string := srcDir +:+ "/utils".

Definition inputFolder : string :=
  NodePath.resolve dirname "../../images".
Definition outputFolder : string :=
  NodePath.resolve dirname "../../public/images/processed".

Definition ensureOutputFolderExists : M unit :=
  found ← existsSync env outputFolder;
  if negb found then
    try_catch (mkdir env outputFolder)
      (fun error =>
         throw_Error ("Failed to create output directory: " +:+ error))
  else mret tt.

(** The pipeline [sharp(inputPath)], resized when a dimension is truthy,
    re-encoded when a format is. *)
Definition build_pipeline (inputPath : string)
    (options : ImageProcessingOptions) : Pipeline :=
  let imageProcess := mkPipeline inputPath None None in
  let imageProcess :=
    if truthy_opt truthy_number (width options)
       || truthy_opt truthy_number (height options)
    then mkPipeline (source imageProcess)
           (Some (width options, height options)) (toFormat imageProcess)
    else imageProcess in
  if truthy_opt truthy_string (format options)
  then mkPipeline (source imageProcess) (resize imageProcess)
         (format options)
  else imageProcess.

Definition processImage (options : ImageProcessingOptions) : M string :=
  _ ← mark (CallProcessImage options);
  try_catch
    (_ ← ensureOutputFolderExists;
     let inputPath := NodePath.join inputFolder (filename options) in
     let outputFilename := generateProcessedFilename options in
     let outputPath := NodePath.join outputFolder outputFilename in
     found ← existsSync env inputPath;
     if negb found then
       throw_Error ("Input file not found: " +:+ inputPath)
     else
       _ ← toFile env (build_pipeline inputPath options) outputPath;
       mret outputPath)
    (fun error => throw_Error ("Failed to process image: " +:+ error)).

Definition imageExists (filename : string) : M bool :=
  let filePath := NodePath.join inputFolder filename in
  try_catch (_ ← access env filePath; mret true) (fun _ => mret false).

End Program.
End ImageProcessor.

(** ** The HTTP layer *)

(** [req.query]: each parameter is a string or is missing. *)
Record Query : Type := mkQuery {
  q_filename : option string;
  q_width : option string;
  q_height : option string;
  q_format : option string
}.

(** What the handler does with [res]. *)
Inductive Response : Type :=
  | Send (status : nat) (body : string)
  | SendFile (path : string)
  | NextError (error : string).

(** [req.query.width ? parseInt(req.query.width) : undefined] *)
Definition parse_dimension (raw : option string) : option number :=
  match raw with
  | Some s => if truthy_string s then Some (ParseInt.parseInt s) else None
  | None => None
  end.

(** The options object both the middleware and the route build from the
    query. A missing [filename] is kept as the empty string: both are
    falsy, and are rejected before the name is used. *)
Definition options_of_query (q : Query) : ImageProcessingOptions :=
  {| filename := default "" (q_filename q);
     width := parse_dimension (q_width q);
     height := parse_dimension (q_height q);
     format := q_format q |}.

(** ** [middleware/cache.ts] *)

Module Cache.
Section Program.
Variable env : Env.
Variable srcDir : string.

Definition dirname : string := srcDir +:+ "/middleware".

Definition outputFolder : string :=
  NodePath.resolve dirname "../../public/images/processed".

Definition checkCache (options : ImageProcessingOptions)
  : M (option string) :=
  try_catch
    (let cachedFilename := generateCacheKey options in
     let cachedFilePath := NodePath.join outputFolder cachedFilename in
     found ← existsSync env cachedFilePath;
     if (found : bool) then mret (Some cachedFilePath) else mret None)
    (fun _ => mret None).

(** [next] is the rest of the route, given [res.locals.imageOptions]. *)
Definition cacheMiddleware (req : Query)
    (next : ImageProcessingOptions -> M Response) : M Response :=
  try_catch
    (let options := options_of_query req in
     if negb (truthy_string (filename options)) then
       mret (Send 400 "Missing required parameter: filename")
     else
       cachedFilePath ← checkCache options;
       if truthy_opt truthy_string cachedFilePath then
         mret (SendFile (default "" cachedFilePath))
       else next options)
    (fun error => mret (NextError error)).

End Program.
End Cache.

(** ** [routes/images/index.ts] *)

Module Routes.
Section Program.
Variable env : Env.
Variable srcDir : string.

(** [n !== undefined && (isNaN(n) || n <= 0)] *)
Definition bad_dimension (n : option number) : bool :=
  match n with
  | Some v => isNaN v || le_zero v
  | None => false
  end.

(** The route's own handler; [locals] is [res.locals.imageOptions]. *)
Definition handler (req : Query) (locals : option ImageProcessingOptions)
  : M Response :=
  try_catch
    (let options :=
       match locals with
       | Some o => o
       | None => options_of_query req
       end in
     if negb (truthy_string (filename options)) then
       mret (Send 400 "Missing required parameter: filename")
     else
       fileExists ← ImageProcessor.imageExists env srcDir (filename options);
       if negb fileExists then
         mret (Send 404 ("Image '" +:+ filename options +:+ "' not found"))
       else if bad_dimension (width options)
               || bad_dimension (height options) then
         mret (Send 400 "Width and height must be positive numbers")
       else
         processedImagePath ← ImageProcessor.processImage env srcDir options;
         mret (SendFile processedImagePath))
    (fun error => mret (Send 500 ("Internal server error: " +:+ error))).

(** [router.get('/', cacheMiddleware, handler)] *)
Definition get_images (req : Query) : M Response :=
  Cache.cacheMiddleware env srcDir req
    (fun options => handler req (Some options)).

End Program.
End Routes.

(** * Vocabulary of the statements *)

(** ** Requests of the data model, and the derivation as designed *)



(** The derivation as the design describes it. The extension of a file
    name and the name without it are the ones [path.parse] defines. *)
Module Design.

Definition base (filename : string) : string :=
  NodePath.name (NodePath.parse filename).

(** The extension without its dot. *)
Definition extension (filename : string) : string :=
  match NodePath.ext (NodePath.parse filename) with
  | String _ e => e
  | EmptyString => ""
  end.

Definition ext (format : option string) (filename : string) : string :=
  match format with
  | Some f => f
  | None =>
      match extension filename with
      | EmptyString => "jpg"
      | e => e
      end
  end.

Definition or_auto (n : option number) : string :=
  match n with
  | Some v => number_to_string v
  | None => "auto"
  end.

Definition dims (width height : option number) : string :=
  match width, height with
  | None, None => ""
  | _, _ => "_" +:+ or_auto width +:+ "x" +:+ or_auto height
  end.

Definition deriveKey (r : ImageProcessingOptions) : string :=
  base (filename r) +:+ dims (width r) (height r) +:+ "." +:+
  ext (format r) (filename r).

End Design.

Definition sample_300x200 : ImageProcessingOptions :=
  mkOptions "sample.jpg" (Some (Num 300)) (Some (Num 200)) None.

Definition sample_png : ImageProcessingOptions :=
  mkOptions "sample.jpg" None None (Some "png").

(** ** File names *)

(** No character of [s] is the separator. *)
Definition separator_free (s : string) : bool :=
  forallb (fun c => negb (NodePath.is_slash c)) (list_ascii_of_string s).

(** The base segment is the file name stripped of its extension, verbatim:
    putting the extension back gives the file name. *)
Definition base_is_verbatim (filename : string) : Prop :=
  NodePath.name (NodePath.parse filename)
  +:+ NodePath.ext (NodePath.parse filename) = filename.

(** ** States of the scanning loop of [path.parse] *)

Module ParseDefs.
Import NodePath.

(** A character string without separator. *)
Definition flat (p : list ascii) : Prop :=
  Forall (fun c => is_slash c = false) p.

(** [startDot] always points at a dot. *)
Definition dot_at (p : list ascii) (st : Scan) : Prop :=
  forall d, startDot st = Some d -> p !! d = Some "."%char.

(** The same characters met [off] places further right. *)
Definition shift (off : nat) (st : Scan) : Scan :=
  {| startDot := match startDot st with
                 | Some d => Some (d + off)
                 | None => None
                 end;
     startPart := startPart st;
     end_ := match end_ st with
             | Some e => Some (e + off)
             | None => None
             end;
     matchedSlash := matchedSlash st;
     preDotState := preDotState st |}.

Definition head_is_slash (p : list ascii) : bool :=
  match p with
  | c0 :: _ => is_slash c0
  | [] => false
  end.

End ParseDefs.

(** ** Paths, probes and traces *)

(** The paths the program computes. *)
Definition cachedFilePath (srcDir : string) (o : ImageProcessingOptions)
  : string :=
  NodePath.join (Cache.outputFolder srcDir) (generateCacheKey o).

Definition outputPath (srcDir : string) (o : ImageProcessingOptions)
  : string :=
  NodePath.join (ImageProcessor.outputFolder srcDir)
    (generateProcessedFilename o).

Definition inputPath (srcDir : string) (filename : string) : string :=
  NodePath.join (ImageProcessor.inputFolder srcDir) filename.

(** The answer of an existence probe once errors are swallowed. *)
Definition found (env : Env) (fs : gmap string Node) (path : string) : bool :=
  match probe_fault env path with
  | Healthy => present fs path
  | Silent | Loud _ => false
  end.

(** The transformer was entered. *)
Definition is_call (e : Event) : bool :=
  match e with CallProcessImage _ => true | _ => false end.
Definition transformer_invoked (t : list Event) : bool := existsb is_call t.

(** The codec was asked to write. *)
Definition is_write (e : Event) : bool :=
  match e with ToFile _ _ => true | _ => false end.
Definition codec_invoked (t : list Event) : bool := existsb is_write t.

Definition bad_dimensions (o : ImageProcessingOptions) : bool :=
  Routes.bad_dimension (width o) || Routes.bad_dimension (height o).

(** ** Messages and responses *)

(** The message of the error [processImage] rethrows. *)
Definition processing_failed (cause : string) : string :=
  "Error: Failed to process image: " +:+ cause.

Definition input_not_found (path : string) : string :=
  "Error: Input file not found: " +:+ path.

Definition mkdir_failed (cause : string) : string :=
  "Error: Failed to create output directory: " +:+ cause.

Definition missing_filename : Response :=
  Send 400 "Missing required parameter: filename".
Definition invalid_dimension : Response :=
  Send 400 "Width and height must be positive numbers".
Definition source_not_found (filename : string) : Response :=
  Send 404 ("Image '" +:+ filename +:+ "' not found").
Definition internal_error (error : string) : Response :=
  Send 500 ("Internal server error: " +:+ error).

(** ** The program, case by case *)

Section Cases.
Variable env : Env.
Variable srcDir : string.

(** [ensureOutputFolderExists], case by case. *)
Definition ensure_cases (fs : gmap string Node)
  : Outcome unit * gmap string Node * list Event :=
  let out := ImageProcessor.outputFolder srcDir in
  match probe_fault env out with
  | Loud e => (Throw e, fs, [ExistsSync out])
  | _ =>
      if found env fs out then (Return tt, fs, [ExistsSync out])
      else
        match mkdir_error env out with
        | None =>
            (Return tt, <[out := Directory]> fs, [ExistsSync out; Mkdir out])
        | Some e =>
            (Throw (mkdir_failed e), fs, [ExistsSync out; Mkdir out])
        end
  end.

(** [processImage] after the output directory is ready. *)
Definition transform_cases (o : ImageProcessingOptions)
    (fs1 : gmap string Node) (t1 : list Event)
  : Outcome string * gmap string Node * list Event :=
  let inP := inputPath srcDir (filename o) in
  let outP := outputPath srcDir o in
  let pl := ImageProcessor.build_pipeline inP o in
  match probe_fault env inP with
  | Loud e =>
      (Throw (processing_failed e), fs1,
       CallProcessImage o :: t1 ++ [ExistsSync inP])
  | _ =>
      if found env fs1 inP then
        match codec env fs1 pl outP with
        | Encoded bytes =>
            (Return outP, <[outP := File bytes]> fs1,
             CallProcessImage o :: t1 ++ [ExistsSync inP; ToFile pl outP])
        | Rejected e None =>
            (Throw (processing_failed e), fs1,
             CallProcessImage o :: t1 ++ [ExistsSync inP; ToFile pl outP])
        | Rejected e (Some partial) =>
            (Throw (processing_failed e), <[outP := File partial]> fs1,
             CallProcessImage o :: t1 ++ [ExistsSync inP; ToFile pl outP])
        end
      else
        (Throw (processing_failed (input_not_found inP)), fs1,
         CallProcessImage o :: t1 ++ [ExistsSync inP])
  end.

Definition processImage_cases (o : ImageProcessingOptions)
    (fs : gmap string Node)
  : Outcome string * gmap string Node * list Event :=
  match ensure_cases fs with
  | (Return _, fs1, t1) => transform_cases o fs1 t1
  | (Throw e, fs1, t1) =>
      (Throw (processing_failed e), fs1, CallProcessImage o :: t1)
  end.

(** The route's handler, case by case, on the options the middleware
    left in [res.locals]. *)
Definition handler_cases (o : ImageProcessingOptions)
    (fs : gmap string Node)
  : Outcome Response * gmap string Node * list Event :=
  let inP := inputPath srcDir (filename o) in
  if negb (truthy_string (filename o)) then (Return missing_filename, fs, [])
  else if negb (found env fs inP) then
    (Return (source_not_found (filename o)), fs, [Access inP])
  else if Routes.bad_dimension (width o) || Routes.bad_dimension (height o)
  then (Return invalid_dimension, fs, [Access inP])
  else
    match ImageProcessor.processImage env srcDir o fs with
    | (Return p, fs', t) => (Return (SendFile p), fs', Access inP :: t)
    | (Throw e, fs', t) => (Return (internal_error e), fs', Access inP :: t)
    end.

(** The whole route, case by case. *)
Definition route_cases (q : Query) (fs : gmap string Node)
  : Outcome Response * gmap string Node * list Event :=
  let o := options_of_query q in
  let cached := cachedFilePath srcDir o in
  if negb (truthy_string (filename o)) then (Return missing_filename, fs, [])
  else if found env fs cached then
    (Return (SendFile cached), fs, [ExistsSync cached])
  else
    match handler_cases o fs with
    | (r, fs', t) => (r, fs', ExistsSync cached :: t)
    end.

End Cases.

(** ** A concrete installation, for the closed examples *)

(** The sources are in [/srv/app/src], the images in [/srv/app/images], the
    artifacts in [/srv/app/public/images/processed]. *)
Definition app : string := "/srv/app/src".

Definition healthy : Env :=
  mkEnv (fun _ => Healthy) (fun _ => None) (fun _ _ _ => Encoded "resized").

Definition source_only : gmap string Node :=
  {[ "/srv/app/images/sample.jpg" := File "original" ]}.

Definition with_artifact : gmap string Node :=
  <[ "/srv/app/public/images/processed/sample_300x200.jpg" := File "resized" ]>
    source_only.

Definition no_mkdir : Env :=
  mkEnv (fun _ => Healthy)
        (fun _ => Some "Error: EACCES: permission denied, mkdir")
        (fun _ _ _ => Encoded "resized").

(** The codec gives up after having started to write. *)
Definition disk_full : Env :=
  mkEnv (fun _ => Healthy) (fun _ => None)
        (fun _ _ _ => Rejected "Error: write failed: disk full"
                               (Some "trunc")).

(** The storage fails when the artifact of [sample_300x200] is probed. *)
Definition flaky : Env :=
  mkEnv (fun p =>
           if bool_decide
                (p = "/srv/app/public/images/processed/sample_300x200.jpg")
           then Silent else Healthy)
        (fun _ => None) (fun _ _ _ => Encoded "resized").

(** Requests and artifacts of the examples. *)
Definition q_sample : Query :=
  mkQuery (Some "sample.jpg") (Some "300") (Some "200") None.
Definition q_plain : Query := mkQuery (Some "sample.jpg") None None None.
Definition q_sample_bad : Query :=
  mkQuery (Some "sample.jpg") (Some "notanumber") None None.
Definition q_ghost : Query :=
  mkQuery (Some "ghost.jpg") (Some "300") (Some "200") None.
Definition q_ghost_bad : Query :=
  mkQuery (Some "ghost.jpg") (Some "notanumber") None None.
Definition ghost_300x200 : ImageProcessingOptions :=
  mkOptions "ghost.jpg" (Some (Num 300)) (Some (Num 200)) None.

Definition artifact_300x200 : string :=
  "/srv/app/public/images/processed/sample_300x200.jpg".
Definition artifact_plain : string :=
  "/srv/app/public/images/processed/sample.jpg".
Definition ghost_artifact : string :=
  "/srv/app/public/images/processed/ghost_300x200.jpg".
Definition ghost_cached : gmap string Node :=
  {[ ghost_artifact := File "cached" ]}.
Definition output_dir_only : gmap string Node :=
  {[ "/srv/app/public/images/processed" := Directory ]}.

(** ** Segments, digits and the scanning loop, for the further properties *)

Definition ghost_ready : gmap string Node :=
  <[ "/srv/app/images/ghost.jpg" := File "original" ]> output_dir_only.

(** The options with every falsy field removed: a zero or NaN dimension
    and an empty format become absent. *)
Definition drop_falsy (o : ImageProcessingOptions) : ImageProcessingOptions :=
  {| filename := filename o;
     width := if truthy_opt truthy_number (width o) then width o else None;
     height := if truthy_opt truthy_number (height o) then height o else None;
     format := if truthy_opt truthy_string (format o) then format o else None |}.

(** No character of [s] is a dot. *)
Definition dot_free (s : string) : bool :=
  forallb (fun c => negb (NodePath.is_dot c)) (list_ascii_of_string s).

Module ScanDefs.
Import NodePath.

(** What holds of the variables of the scanning loop of [path.parse] when
    the indices from [cur] on have been visited and no [break] occurred:
    the stretch from [cur] to [end] holds no separator, and [startDot] is
    the last dot of that stretch. *)
Definition scan_inv (p : list ascii) (cur : nat) (st : Scan) : Prop :=
  startPart st = 0
  /\ match end_ st with
     | None => matchedSlash st = true /\ startDot st = None
     | Some e =>
         matchedSlash st = false /\ cur < e /\ e <= List.length p
         /\ (forall i c, cur <= i < e -> p !! i = Some c -> is_slash c = false)
         /\ match startDot st with
            | None =>
                forall i c, cur <= i < e -> p !! i = Some c -> is_dot c = false
            | Some d =>
                cur <= d < e
                /\ forall i c, d < i < e -> p !! i = Some c -> is_dot c = false
            end
     end.

(** What holds when the loop is left; [lo] is where the last component
    begins. *)
Definition scan_post (p : list ascii) (lo : nat) (st : Scan) : Prop :=
  match end_ st with
  | None => True
  | Some e =>
      lo <= e /\ e <= List.length p
      /\ (forall i c, lo <= i < e -> p !! i = Some c -> is_slash c = false)
      /\ match startDot st with
         | None => True
         | Some d =>
             lo <= d < e
             /\ forall i c, d < i < e -> p !! i = Some c -> is_dot c = false
         end
  end.

Definition component_start (start : nat) (st : Scan) : nat :=
  if (startPart st =? 0)%nat then start else startPart st.

End ScanDefs.

(** Every character of [s] satisfies [P]. *)
Definition all_chars (P : ascii -> bool) (s : string) : bool :=
  forallb P (list_ascii_of_string s).

(** A decimal digit, or the minus sign. *)
Definition is_decimal (c : ascii) : bool :=
  let n := nat_of_ascii c in
  ((48 <=? n) && (n <=? 57) || (n =? 45))%nat.

Definition is_digit (c : ascii) : bool :=
  let n := nat_of_ascii c in ((48 <=? n) && (n <=? 57))%nat.

(** A dimension the key prints: absent, or truthy. *)
Definition printed_dimension (n : option number) : Prop :=
  match n with
  | Some v => truthy_number v = true
  | None => True
  end.

(** An integer that a JavaScript number holds exactly: up to
    [Number.MAX_SAFE_INTEGER] in magnitude. In that range [parseInt] is
    exact and a template literal prints in decimal. *)
Definition safe_integer (z : Z) : Prop := (Z.abs z <= 9007199254740991)%Z.

Definition safe_dimension (n : option number) : Prop :=
  match n with
  | Some (Num z) => safe_integer z
  | _ => True
  end.

(** A segment that [normalizeString] keeps as it is. *)
Definition normal_segment (s : string) : Prop :=
  s <> "" /\ s <> "." /\ s <> ".." /\ separator_free s = true.

(** A format that is absent, or that holds neither separator nor dot. *)
Definition plain_format (fmt : option string) : Prop :=
  match fmt with
  | Some s => separator_free s = true /\ dot_free s = true
  | None => True
  end.

(** The segments of the directory above the source directory. *)
Definition project_root (srcDir : string) : list string :=
  NodePath.norm_step false (NodePath.normalizeString srcDir false) "..".

(** The absolute path made of the given segments. *)
Definition absolute (segments : list string) : string :=
  "/" +:+ String.concat "/" segments.

(** * Properties *)

(** ** The scanning loop of [path.parse] *)

Module ParseFacts.
Import NodePath ParseDefs.

Lemma is_slash_true c : is_slash c = true <-> c = "/"%char.
Proof. unfold is_slash, CHAR_FORWARD_SLASH. apply bool_decide_eq_true. Qed.

Lemma is_dot_true c : is_dot c = true <-> c = "."%char.
Proof. unfold is_dot, CHAR_DOT. apply bool_decide_eq_true. Qed.

(** Effect of one non-separator character on each variable. *)
Lemma scan_char_startPart c i st :
  startPart (scan_char c i st) = startPart st.
Proof.
  unfold scan_char.
  destruct (end_ st), (is_dot c), (startDot st); simpl;
    try destruct (negb _); reflexivity.
Qed.

Lemma scan_char_end c i st :
  end_ (scan_char c i st)
  = match end_ st with Some e => Some e | None => Some (i + 1) end.
Proof.
  unfold scan_char.
  destruct (end_ st) eqn:E, (is_dot c), (startDot st); simpl;
    try destruct (negb _); simpl; auto.
Qed.

Lemma scan_char_matchedSlash c i st :
  matchedSlash (scan_char c i st)
  = match end_ st with Some _ => matchedSlash st | None => false end.
Proof.
  unfold scan_char.
  destruct (end_ st) eqn:E, (is_dot c), (startDot st); simpl;
    try destruct (negb _); simpl; auto.
Qed.

Lemma scan_char_startDot c i st :
  startDot (scan_char c i st)
  = match startDot st with
    | Some d => Some d
    | None => if is_dot c then Some i else None
    end.
Proof.
  unfold scan_char.
  destruct (end_ st) eqn:E, (is_dot c), (startDot st) eqn:D; simpl;
    try destruct (negb _); simpl; auto.
Qed.

Lemma scan_loop_dot_at p start k : forall st,
  dot_at p st -> dot_at p (scan_loop p start k st).
Proof.
  induction k as [|k IH]; intros st Hst; simpl; [exact Hst|].
  destruct (p !! (start + k)) as [c|] eqn:Hc; [|exact Hst].
  destruct (is_slash c).
  - destruct (negb (matchedSlash st)); [exact Hst | apply IH, Hst].
  - apply IH. intros d. rewrite scan_char_startDot.
    destruct (startDot st) as [d0|] eqn:D.
    + intros [= <-]. apply Hst, D.
    + destruct (is_dot c) eqn:Hd; [|discriminate].
      intros [= <-]. apply is_dot_true in Hd. by subst c.
Qed.

(** The loop over a stretch of indices that holds no separator: no
    [break], [end] and [matchedSlash] are set by the first character met,
    [startDot] by the first dot met. *)
Lemma scan_loop_flat p start k : forall st,
  start + k <= List.length p ->
  (forall i c, start <= i < start + k -> p !! i = Some c ->
               is_slash c = false) ->
  let st' := scan_loop p start k st in
  startPart st' = startPart st
  /\ end_ st' = match end_ st with
                | Some e => Some e
                | None => match k with O => None | S _ => Some (start + k) end
                end
  /\ matchedSlash st' = match end_ st with
                        | Some _ => matchedSlash st
                        | None =>
                            match k with O => matchedSlash st | S _ => false end
                        end
  /\ (startDot st' = startDot st
      \/ (startDot st = None
          /\ exists d, startDot st' = Some d /\ start <= d < start + k)).
Proof.
  induction k as [|k IH]; intros st Hlen Hflat; simpl.
  - destruct (end_ st); auto.
  - destruct (p !! (start + k)) as [c|] eqn:Hc.
    2:{ apply lookup_ge_None in Hc. lia. }
    rewrite (Hflat (start + k) c ltac:(lia) Hc).
    destruct (IH (scan_char c (start + k) st) ltac:(lia)) as (HP & HE & HM & HD).
    { intros i c' Hi. apply Hflat. lia. }
    rewrite scan_char_startPart in HP.
    rewrite scan_char_end in HE.
    rewrite scan_char_matchedSlash, scan_char_end in HM.
    rewrite scan_char_startDot in HD.
    split; [exact HP|]. split; [|split].
    + rewrite HE. destruct (end_ st); [reflexivity|].
      f_equal. lia.
    + rewrite HM. destruct (end_ st); reflexivity.
    + destruct (startDot st) as [d0|] eqn:D.
      * left. destruct HD as [HD|[HD _]]; [exact HD|discriminate].
      * destruct (is_dot c).
        -- right. split; [reflexivity|]. exists (start + k).
           destruct HD as [HD|[HD _]]; [|discriminate].
           split; [exact HD|lia].
        -- destruct HD as [HD|(_ & d & HD & Hr)]; [left; exact HD|].
           right. split; [reflexivity|]. exists d. split; [exact HD|lia].
Qed.

Lemma str_app a b : str (a ++ b) = str a +:+ str b.
Proof. induction a as [|c a IH]; simpl; [reflexivity|]. by rewrite IH. Qed.

Lemma append_empty_r s : s +:+ "" = s.
Proof.
  induction s as [|c s IH]; [reflexivity|].
  change (String c (s +:+ "") = String c s). by rewrite IH.
Qed.

Lemma chars_app a b :
  list_ascii_of_string (a +:+ b)
  = list_ascii_of_string a ++ list_ascii_of_string b.
Proof.
  induction a as [|c a IH]; [reflexivity|].
  change (c :: list_ascii_of_string (a +:+ b)
          = c :: (list_ascii_of_string a ++ list_ascii_of_string b)).
  by rewrite IH.
Qed.

Lemma slice_all p : slice p 0 (List.length p) = p.
Proof. unfold slice. rewrite drop_0, Nat.sub_0_r. apply firstn_all. Qed.

Lemma slice_split p d e :
  d <= e -> slice p 0 d ++ slice p d e = slice p 0 e.
Proof.
  intros Hde. unfold slice. rewrite !drop_0, !Nat.sub_0_r.
  rewrite take_take_drop. f_equal. lia.
Qed.

(** The extension [path.parse] returns is empty or begins with the dot. *)
Lemma finish_ext_form p abs st :
  dot_at p st ->
  ext (finish p abs st) = ""
  \/ exists rest, ext (finish p abs st) = String "."%char rest.
Proof.
  intros Hdot. unfold finish.
  destruct (end_ st) as [e|]; [|by left].
  destruct (startDot st) as [d|] eqn:D; [|by left].
  destruct (_ || _); [by left|]. simpl.
  unfold slice. destruct (e - d) as [|n]; [by left|].
  specialize (Hdot d D).
  assert (Hlt : d < List.length p) by (eapply lookup_lt_Some, Hdot).
  apply take_drop_middle in Hdot. rewrite <- Hdot.
  rewrite drop_app_length' by (rewrite length_take; lia).
  right. simpl. eauto.
Qed.

Lemma parse_ext_form path :
  ext (parse path) = ""
  \/ exists rest, ext (parse path) = String "."%char rest.
Proof.
  unfold parse, parse_chars.
  destruct (list_ascii_of_string path) as [|c0 p']; [by left|].
  apply finish_ext_form, scan_loop_dot_at. intros d [=].
Qed.

Lemma flat_lookup p i c : flat p -> p !! i = Some c -> is_slash c = false.
Proof. intros Hf Hi. exact (proj1 (Forall_lookup _ p) Hf i c Hi). Qed.

(** The state in which the loop leaves a name without separator. *)
Lemma scan_flat_name f :
  flat f -> f <> [] ->
  let st := scan_loop f 0 (List.length f) scan_init in
  startPart st = 0
  /\ end_ st = Some (List.length f)
  /\ matchedSlash st = false
  /\ (startDot st = None
      \/ exists d, startDot st = Some d /\ d < List.length f).
Proof.
  intros Hflat Hne.
  destruct (scan_loop_flat f 0 (List.length f) scan_init) as (HP & HE & HM & HD).
  { lia. }
  { intros i c _ Hc. eapply flat_lookup; eauto. }
  destruct f as [|c0 f']; [done|]. simpl List.length in *.
  simpl in HP, HE, HM, HD.
  repeat split; auto.
  destruct HD as [HD|(_ & d & HD & Hr)]; [by left|].
  right. exists d. split; [exact HD|simpl; lia].
Qed.

(** For a name without separator, [name] and [ext] cut the name in two:
    nothing is dropped, replaced or escaped. *)
Lemma parse_chars_flat f :
  flat f -> f <> [] ->
  name (parse_chars f) +:+ ext (parse_chars f) = str f.
Proof.
  intros Hflat Hne.
  destruct (scan_flat_name f Hflat Hne) as (HP & HE & HM & HD).
  destruct f as [|c0 f'] eqn:Ef; [done|]. rewrite <- Ef in *.
  assert (Hc0 : is_slash c0 = false).
  { apply (flat_lookup f 0 c0 Hflat). by rewrite Ef. }
  unfold parse_chars. rewrite Ef, <- Ef, Hc0, Nat.sub_0_r.
  set (st := scan_loop f 0 (List.length f) scan_init) in *. clearbody st.
  unfold finish. rewrite HP, HE. simpl andb. cbv iota.
  destruct HD as [HD|(d & HD & Hd)]; rewrite HD.
  - simpl. by rewrite append_empty_r, slice_all.
  - destruct (_ || _); simpl.
    + by rewrite append_empty_r, slice_all.
    + rewrite <- str_app, slice_split, slice_all by lia. reflexivity.
Qed.

(** *** A directory in front of a name *)

(** The loop does not [break] on a stretch without separator, so it can
    be cut there. *)
Lemma scan_loop_split p s k1 k2 : forall st,
  s + k1 + k2 <= List.length p ->
  (forall i c, s + k1 <= i < s + k1 + k2 -> p !! i = Some c ->
               is_slash c = false) ->
  scan_loop p s (k1 + k2) st
  = scan_loop p s k1 (scan_loop p (s + k1) k2 st).
Proof.
  induction k2 as [|k2 IH]; intros st Hlen Hflat.
  - by rewrite Nat.add_0_r.
  - rewrite Nat.add_succ_r. simpl.
    rewrite Nat.add_assoc.
    destruct (p !! (s + k1 + k2)) as [c|] eqn:Hc.
    2:{ apply lookup_ge_None in Hc. lia. }
    rewrite (Hflat (s + k1 + k2) c ltac:(lia) Hc).
    apply IH; [lia|]. intros i c' Hi. apply Hflat. lia.
Qed.

Lemma scan_char_shift c i off st :
  scan_char c (off + i) (shift off st) = shift off (scan_char c (0 + i) st).
Proof.
  unfold scan_char, shift.
  destruct st as [sd sp en ms pds]; simpl.
  destruct en as [e|], (is_dot c), sd as [d|]; simpl;
    try destruct (negb _); simpl; f_equal; f_equal; lia.
Qed.

Lemma scan_loop_shift pre f k : forall st,
  flat f -> k <= List.length f ->
  scan_loop (pre ++ f) (List.length pre) k (shift (List.length pre) st)
  = shift (List.length pre) (scan_loop f 0 k st).
Proof.
  induction k as [|k IH]; intros st Hflat Hk; [reflexivity|].
  simpl scan_loop.
  rewrite lookup_app_r by lia.
  replace (List.length pre + k - List.length pre) with k by lia.
  destruct (f !! k) as [c|] eqn:Hc.
  2:{ apply lookup_ge_None in Hc. lia. }
  rewrite (flat_lookup f k c Hflat Hc).
  rewrite scan_char_shift. apply IH; [exact Hflat|lia].
Qed.

Lemma slice_shift pre f a b :
  slice (pre ++ f) (a + List.length pre) (b + List.length pre) = slice f a b.
Proof.
  unfold slice. rewrite (Nat.add_comm a), drop_app_add. f_equal. lia.
Qed.

Lemma parse_chars_flat_eq f :
  flat f -> f <> [] ->
  parse_chars f = finish f false (scan_loop f 0 (List.length f) scan_init).
Proof.
  intros Hflat Hne. destruct f as [|c0 f']; [done|].
  unfold parse_chars.
  rewrite (flat_lookup (c0 :: f') 0 c0 Hflat eq_refl).
  by rewrite Nat.sub_0_r.
Qed.

Lemma parse_chars_eq p :
  p <> [] ->
  parse_chars p
  = finish p (head_is_slash p)
      (scan_loop p (if head_is_slash p then 1 else 0)
         (List.length p - (if head_is_slash p then 1 else 0)) scan_init).
Proof. destruct p; [done|reflexivity]. Qed.

(** A directory part in front of a name is dropped: [dir/f] has the
    [name] and the [ext] of [f]. *)
Lemma parse_chars_dir dir f :
  dir <> [] -> flat f -> f <> [] ->
  name (parse_chars (dir ++ "/"%char :: f)) = name (parse_chars f)
  /\ ext (parse_chars (dir ++ "/"%char :: f)) = ext (parse_chars f).
Proof.
  intros Hdir Hflat Hne.
  destruct (scan_flat_name f Hflat Hne) as (HP & HE & HM & HD).
  rewrite (parse_chars_flat_eq f Hflat Hne).
  set (pre := dir ++ ["/"%char]).
  assert (Hp : dir ++ "/"%char :: f = pre ++ f).
  { unfold pre. by rewrite <- app_assoc. }
  assert (Hoff : List.length pre = S (List.length dir)).
  { unfold pre. rewrite length_app. simpl. lia. }
  assert (Hdl : 1 <= List.length dir) by (destruct dir; [done|simpl; lia]).
  rewrite Hp, parse_chars_eq by (destruct pre; [done|done]).
  set (abs := head_is_slash (pre ++ f)).
  set (start := if abs then 1 else 0).
  assert (Hstart : start <= List.length dir).
  { unfold start. destruct abs; lia. }
  set (st := scan_loop f 0 (List.length f) scan_init) in *.
  assert (Hscan :
    scan_loop (pre ++ f) start (List.length (pre ++ f) - start) scan_init
    = {| startDot := startDot (shift (List.length pre) st);
         startPart := List.length pre;
         end_ := Some (List.length f + List.length pre);
         matchedSlash := false;
         preDotState := preDotState st |}).
  { replace (List.length (pre ++ f) - start)
      with (S (List.length dir - start) + List.length f)
      by (rewrite length_app; lia).
    rewrite scan_loop_split.
    2:{ rewrite length_app. lia. }
    2:{ intros i c Hi Hc. rewrite lookup_app_r in Hc by lia.
        eapply flat_lookup; eauto. }
    replace (start + S (List.length dir - start)) with (List.length pre)
      by lia.
    change scan_init with (shift (List.length pre) scan_init) at 1.
    rewrite scan_loop_shift by (auto; lia).
    fold st. clearbody st.
    simpl scan_loop.
    replace (start + (List.length dir - start)) with (List.length dir)
      by lia.
    assert (Hsl : (pre ++ f) !! List.length dir = Some "/"%char).
    { rewrite lookup_app_l by lia. unfold pre.
      by rewrite list_lookup_middle. }
    rewrite Hsl.
    change (is_slash "/") with true. cbv iota.
    simpl matchedSlash. rewrite HM. simpl negb. cbv iota.
    simpl. rewrite HE. f_equal. lia. }
  rewrite Hscan. clearbody st.
  unfold finish. simpl end_. simpl startPart. simpl startDot.
  simpl preDotState. rewrite HP, HE.
  assert (Hz : (List.length pre =? 0)%nat = false).
  { apply Nat.eqb_neq. lia. }
  rewrite Hz. simpl andb. cbv iota.
  assert (Hfl : 1 <= List.length f) by (destruct f; [done|simpl; lia]).
  assert (Hs : forall a b a' b',
             a' = a + List.length pre -> b' = b + List.length pre ->
             slice (pre ++ f) a' b' = slice f a b).
  { intros a b a' b' -> ->. apply slice_shift. }
  destruct HD as [HD|(d & HD & Hd)]; rewrite HD; simpl.
  - split; [|reflexivity]. f_equal. apply Hs; lia.
  - assert (B1 : (d + List.length pre =? List.length f + List.length pre - 1)%nat
                 = (d =? List.length f - 1)%nat).
    { destruct (Nat.eqb_spec d (List.length f - 1)) as [E|E].
      - apply Nat.eqb_eq. lia.
      - apply Nat.eqb_neq. lia. }
    assert (B2 : (d + List.length pre =? List.length pre + 1)%nat
                 = (d =? 1)%nat).
    { destruct (Nat.eqb_spec d 1) as [E|E].
      - apply Nat.eqb_eq. lia.
      - apply Nat.eqb_neq. lia. }
    rewrite B1, B2.
    destruct (_ || _); simpl; split; try reflexivity; f_equal; apply Hs; lia.
Qed.

End ParseFacts.

(** ** Key derivation *)




Lemma chars_nonempty s : s <> "" -> list_ascii_of_string s <> [].
Proof. destruct s; [done|discriminate]. Qed.

Lemma separator_free_flat s :
  separator_free s = true -> ParseDefs.flat (list_ascii_of_string s).
Proof.
  unfold separator_free, ParseDefs.flat. intros H.
  apply Forall_forall. intros c Hc.
  apply negb_true_iff.
  exact (proj1 (forallb_forall _ _) H c (proj1 (list_elem_of_In _ _) Hc)).
Qed.

(** A name without separator is cut in two by [path.parse]. *)
Lemma flat_base_verbatim f :
  separator_free f = true -> f <> "" -> base_is_verbatim f.
Proof.
  intros Hflat Hne. unfold base_is_verbatim, NodePath.parse.
  rewrite ParseFacts.parse_chars_flat
    by auto using separator_free_flat, chars_nonempty.
  apply string_of_list_ascii_of_string.
Qed.



Example parse_examples :
  let view p := (NodePath.name (NodePath.parse p), NodePath.ext (NodePath.parse p)) in
  view "sample.jpg" = ("sample", ".jpg")
  /\ view "fjord" = ("fjord", "")
  /\ view "archive.tar.gz" = ("archive.tar", ".gz")
  /\ view ".bashrc" = (".bashrc", "")
  /\ view "a." = ("a", ".")
  /\ view ".." = ("..", "")
  /\ view "photos/cat.jpg" = ("cat", ".jpg")
  /\ view "photos/cat.jpg/" = ("cat", ".jpg")
  /\ view "/" = ("", "").
Proof. repeat split. Qed.

Example parseInt_examples :
  ParseInt.parseInt "300" = Num 300
  /\ ParseInt.parseInt "notanumber" = NaN
  /\ ParseInt.parseInt "-5" = Num (-5)
  /\ ParseInt.parseInt "0" = Num 0
  /\ ParseInt.parseInt " 42px" = Num 42
  /\ ParseInt.parseInt "0x1F" = Num 31
  /\ ParseInt.parseInt "12.5" = Num 12.
Proof. repeat split. Qed.

Example key_sample_300x200 :
  generateProcessedFilename sample_300x200 = "sample_300x200.jpg"
  /\ Design.deriveKey sample_300x200 = "sample_300x200.jpg".
Proof. split; reflexivity. Qed.

Example key_sample_png :
  generateProcessedFilename sample_png = "sample.png"
  /\ Design.deriveKey sample_png = "sample.png".
Proof. split; reflexivity. Qed.

Example key_width_only :
  generateCacheKey (mkOptions "sample.jpg" (Some (Num 300)) None None)
  = "sample_300xauto.jpg".
Proof. reflexivity. Qed.

Example key_no_extension :
  generateCacheKey (mkOptions "fjord" None None None) = "fjord.jpg".
Proof. reflexivity. Qed.

(** ** File names with directory separators *)

(** C7, as stated, fails on a file name that holds a separator: the
    directory part is not in the base segment. *)
Lemma C7_counterexample :
  ~ base_is_verbatim "photos/cat.jpg"
  /\ NodePath.name (NodePath.parse "photos/cat.jpg") = "cat"
  /\ generateCacheKey (mkOptions "photos/cat.jpg" None None None) = "cat.jpg"
  /\ generateProcessedFilename (mkOptions "photos/cat.jpg" None None None)
     = "cat.jpg".
Proof.
  split; [|repeat split].
  unfold base_is_verbatim. vm_compute. discriminate.
Qed.

(** C7, amended. Key derivation is a total function of the options. For a
    file name without separator the base segment is the file name stripped
    of its extension, verbatim; a directory part in front of such a name is
    dropped, so that [dir/f] and [f] derive the same key. *)
Theorem C7_base_segment (dir f : string)
    (w h : option number) (fmt : option string) :
  separator_free f = true -> f <> "" ->
  base_is_verbatim f
  /\ (dir <> "" ->
      NodePath.name (NodePath.parse (dir +:+ "/" +:+ f))
      = NodePath.name (NodePath.parse f)
      /\ generateCacheKey (mkOptions (dir +:+ "/" +:+ f) w h fmt)
         = generateCacheKey (mkOptions f w h fmt)
      /\ generateProcessedFilename (mkOptions (dir +:+ "/" +:+ f) w h fmt)
         = generateProcessedFilename (mkOptions f w h fmt)).
Proof.
  intros Hflat Hne.
  pose proof (separator_free_flat f Hflat) as Hfl.
  pose proof (chars_nonempty f Hne) as Hn.
  split.
  - by apply flat_base_verbatim.
  - intros Hdir.
    assert (Hparse :
      NodePath.name (NodePath.parse (dir +:+ "/" +:+ f))
      = NodePath.name (NodePath.parse f)
      /\ NodePath.ext (NodePath.parse (dir +:+ "/" +:+ f))
         = NodePath.ext (NodePath.parse f)).
    { unfold NodePath.parse. rewrite !ParseFacts.chars_app.
      apply ParseFacts.parse_chars_dir; auto using chars_nonempty. }
    destruct Hparse as [Hname Hext].
    split; [exact Hname|].
    assert (Hkey :
      generateCacheKey (mkOptions (dir +:+ "/" +:+ f) w h fmt)
      = generateCacheKey (mkOptions f w h fmt)).
    { unfold generateCacheKey. simpl. by rewrite Hname, Hext. }
    split; [exact Hkey|].
    unfold generateProcessedFilename, extension_of, dimensions_of. simpl.
    by rewrite Hname, Hext.
Qed.

Lemma C7_base_segment_witness :
  separator_free "cat.jpg" = true /\ "cat.jpg" <> ""
  /\ base_is_verbatim "cat.jpg"
  /\ generateCacheKey (mkOptions ("photos" +:+ "/" +:+ "cat.jpg")
                                 (Some (Num 300)) None None)
     = generateCacheKey (mkOptions "cat.jpg" (Some (Num 300)) None None).
Proof.
  assert (H1 : separator_free "cat.jpg" = true) by reflexivity.
  assert (H2 : "cat.jpg" <> "") by discriminate.
  assert (H3 : "photos" <> "") by discriminate.
  destruct (C7_base_segment "photos" "cat.jpg" (Some (Num 300)) None None
              H1 H2) as [Hv Hd].
  destruct (Hd H3) as (_ & Hk & _).
  split; [exact H1|]. split; [exact H2|]. split; [exact Hv|exact Hk].
Defined.

(** ** The two modules name the same output directory *)

Module PathFacts.
Import NodePath.

Lemma split_slash_nonempty s : split_slash s <> [].
Proof.
  destruct s as [|c s]; simpl; [done|].
  destruct (is_slash c); [done|]. by destruct (split_slash s).
Qed.

Lemma split_slash_app a b :
  split_slash (a +:+ String "/"%char b) = split_slash a ++ split_slash b.
Proof.
  induction a as [|c a IH]; [reflexivity|].
  change (String c a +:+ String "/"%char b)
    with (String c (a +:+ String "/"%char b)).
  simpl. rewrite IH.
  destruct (is_slash c); [reflexivity|].
  pose proof (split_slash_nonempty a).
  by destruct (split_slash a).
Qed.

(** Entering a directory and leaving it again changes nothing. *)
Lemma norm_step_in_out res seg :
  seg <> "" -> seg <> "." -> seg <> ".." ->
  norm_step false (norm_step false res seg) ".." = res.
Proof.
  intros H1 H2 H3. unfold norm_step at 2.
  rewrite !bool_decide_eq_false_2 by assumption. simpl.
  unfold norm_step. simpl.
  rewrite last_snoc, bool_decide_eq_false_2 by assumption.
  apply removelast_last.
Qed.

(** [path.resolve(srcDir + "/" + sub, "../" + rest)] does not depend on
    the sub-directory. *)
Lemma resolve_sibling srcDir sub rest :
  sub <> "" -> sub <> "." -> sub <> ".." -> split_slash sub = [sub] ->
  normalizeString
    ((srcDir +:+ String "/"%char sub) +:+ String "/"%char
       (String "."%char (String "."%char (String "/"%char rest)))) false
  = fold_left (norm_step false) (split_slash rest)
      (normalizeString srcDir false).
Proof.
  intros H1 H2 H3 Hsub. unfold normalizeString.
  rewrite !split_slash_app, Hsub.
  change (split_slash (String "."%char (String "."%char (String "/"%char rest))))
    with (split_slash (".." +:+ String "/"%char rest)).
  rewrite split_slash_app.
  change (split_slash "..") with [".."].
  rewrite !fold_left_app. cbn [fold_left].
  by rewrite norm_step_in_out.
Qed.

(** A path joined to an absolute directory is never the empty string. *)
Lemma join_absolute_truthy a b :
  starts_with_slash a = true -> truthy_string (join a b) = true.
Proof.
  destruct a as [|c a]; [discriminate|]. simpl. intros Hc.
  assert (Habs : forall rest,
            truthy_string (normalize (String c rest)) = true).
  { intros rest. unfold normalize. simpl starts_with_slash. rewrite Hc.
    by destruct (normalizeString _ _). }
  destruct b; unfold join; apply Habs.
Qed.

Lemma resolve_absolute from to : starts_with_slash (resolve from to) = true.
Proof. reflexivity. Qed.

End PathFacts.

(** [cache.ts] and [imageProcessor.ts] resolve the same relative path from
    two sibling directories. *)
Lemma outputFolder_agree (srcDir : string) :
  Cache.outputFolder srcDir = ImageProcessor.outputFolder srcDir.
Proof.
  unfold Cache.outputFolder, ImageProcessor.outputFolder.
  unfold Cache.dirname, ImageProcessor.dirname, NodePath.resolve.
  simpl NodePath.starts_with_slash.
  change (NodePath.is_slash ".") with false. cbv iota.
  change (?a +:+ "/" +:+ "../../public/images/processed")
    with (a +:+ "/../../public/images/processed").
  rewrite (PathFacts.resolve_sibling srcDir "middleware"
             "../public/images/processed") by done.
  rewrite (PathFacts.resolve_sibling srcDir "utils"
             "../public/images/processed") by done.
  reflexivity.
Qed.

Example folders_of_app :
  ImageProcessor.inputFolder "/app/src" = "/app/images"
  /\ ImageProcessor.outputFolder "/app/src" = "/app/public/images/processed"
  /\ Cache.outputFolder "/app/dist" = "/app/public/images/processed".
Proof. repeat split. Qed.

(** ** Running the program *)

Ltac unfold_M :=
  unfold mbind, M_bind, mret, M_ret, try_catch, throw_Error, throw,
    existsSync, access, mkdir, toFile, mark in *.

Lemma same_path srcDir o : cachedFilePath srcDir o = outputPath srcDir o.
Proof.
  unfold cachedFilePath, outputPath. by rewrite outputFolder_agree.
Qed.

(** C2. The key function of the cache layer and the output-file-name
    function of the transformer are the same function of the options; as
    the two modules also resolve the same output directory, the cache and
    the transformer place an artifact at the same path. *)
Theorem C2_same_key (options : ImageProcessingOptions) :
  generateCacheKey options = generateProcessedFilename options
  /\ forall srcDir,
       cachedFilePath srcDir options = outputPath srcDir options.
Proof.
  split.
  - unfold generateCacheKey, generateProcessedFilename.
    unfold extension_of, dimensions_of. reflexivity.
  - intros srcDir. apply same_path.
Qed.

Section Runs.
Variable env : Env.
Variable srcDir : string.

(** [checkCache] never throws and never writes: it reports the path when
    the probe finds it, and a miss otherwise, storage errors included. *)
Lemma checkCache_run o fs :
  Cache.checkCache env srcDir o fs
  = (Return (if found env fs (cachedFilePath srcDir o)
             then Some (cachedFilePath srcDir o) else None),
     fs, [ExistsSync (cachedFilePath srcDir o)]).
Proof.
  unfold Cache.checkCache, found. fold (cachedFilePath srcDir o).
  unfold_M.
  destruct (probe_fault env (cachedFilePath srcDir o)); simpl;
    [destruct (present _ _)|..]; reflexivity.
Qed.

(** [imageExists] never throws: every error is a [false]. *)
Lemma imageExists_run filename fs :
  ImageProcessor.imageExists env srcDir filename fs
  = (Return (found env fs (inputPath srcDir filename)), fs,
     [Access (inputPath srcDir filename)]).
Proof.
  unfold ImageProcessor.imageExists, found. fold (inputPath srcDir filename).
  unfold_M.
  destruct (probe_fault env (inputPath srcDir filename)); simpl;
    [destruct (present _ _)|..]; reflexivity.
Qed.

Lemma ensure_run fs :
  ImageProcessor.ensureOutputFolderExists env srcDir fs = ensure_cases env srcDir fs.
Proof.
  unfold ImageProcessor.ensureOutputFolderExists, ensure_cases, found.
  unfold_M.
  destruct (probe_fault env _); simpl; try reflexivity.
  - destruct (present fs _); simpl; [reflexivity|].
    destruct (mkdir_error env _); reflexivity.
  - destruct (mkdir_error env _); reflexivity.
Qed.

Lemma processImage_run o fs :
  ImageProcessor.processImage env srcDir o fs = processImage_cases env srcDir o fs.
Proof.
  unfold ImageProcessor.processImage, processImage_cases, transform_cases.
  fold (outputPath srcDir o). fold (inputPath srcDir (filename o)).
  unfold mbind at 1 2. unfold M_bind at 1 2. unfold try_catch at 1.
  unfold mark at 1. rewrite ensure_run.
  destruct (ensure_cases env srcDir fs) as [[[u|e] fs1] t1].
  2:{ unfold throw_Error, throw. simpl. by rewrite app_nil_r. }
  unfold found. unfold_M.
  destruct (probe_fault env (inputPath srcDir (filename o))); simpl.
  - destruct (present fs1 _); simpl; [|by rewrite app_nil_r].
    destruct (codec env fs1 _ _) as [b|e [b|]]; simpl;
      by rewrite ?app_nil_r.
  - by rewrite app_nil_r.
  - by rewrite app_nil_r.
Qed.

Lemma ensure_no_codec fs :
  codec_invoked (events (ensure_cases env srcDir fs)) = false
  /\ transformer_invoked (events (ensure_cases env srcDir fs)) = false.
Proof.
  unfold ensure_cases.
  destruct (probe_fault env (ImageProcessor.outputFolder srcDir)),
    (found env fs (ImageProcessor.outputFolder srcDir)),
    (mkdir_error env (ImageProcessor.outputFolder srcDir));
    split; reflexivity.
Qed.

(** The only path [ensureOutputFolderExists] may change is the output
    directory itself. *)
Lemma ensure_frame fs p :
  p <> ImageProcessor.outputFolder srcDir ->
  final_fs (ensure_cases env srcDir fs) !! p = fs !! p.
Proof.
  intros Hp. unfold ensure_cases.
  destruct (probe_fault env (ImageProcessor.outputFolder srcDir)),
    (found env fs (ImageProcessor.outputFolder srcDir)),
    (mkdir_error env (ImageProcessor.outputFolder srcDir));
    unfold final_fs; simpl; try reflexivity; by rewrite lookup_insert_ne.
Qed.

(** A successful transform wrote the artifact at the derived path. *)
Lemma processImage_success o fs p fs' t :
  ImageProcessor.processImage env srcDir o fs = (Return p, fs', t) ->
  p = outputPath srcDir o
  /\ (exists bytes, fs' !! p = Some (File bytes))
  /\ codec_invoked t = true.
Proof.
  rewrite processImage_run. unfold processImage_cases, transform_cases.
  destruct (ensure_cases env srcDir fs) as [[[u|e] fs1] t1]; [|discriminate].
  intros H. repeat case_match; simplify_eq.
  all: split; [reflexivity|]; split;
    [eexists; apply lookup_insert_eq
    |unfold codec_invoked; simpl; rewrite existsb_app; simpl;
     by rewrite orb_true_r].
Qed.

(** Every run of [processImage] begins with its entry mark. *)
Lemma processImage_marks o fs :
  exists t,
    events (ImageProcessor.processImage env srcDir o fs)
    = CallProcessImage o :: t.
Proof.
  rewrite processImage_run. unfold processImage_cases, transform_cases.
  destruct (ensure_cases env srcDir fs) as [[[u|e] fs1] t1]; [|by eexists].
  repeat case_match; by eexists.
Qed.

Lemma cachedFilePath_truthy o :
  truthy_string (cachedFilePath srcDir o) = true.
Proof.
  apply PathFacts.join_absolute_truthy, PathFacts.resolve_absolute.
Qed.

Lemma handler_run q o fs :
  Routes.handler env srcDir q (Some o) fs = handler_cases env srcDir o fs.
Proof.
  unfold Routes.handler, handler_cases.
  unfold try_catch at 1.
  destruct (truthy_string (filename o)); simpl; [|reflexivity].
  unfold mbind at 1. unfold M_bind at 1. rewrite imageExists_run.
  destruct (found env fs _); simpl; [|reflexivity].
  destruct (_ || _); simpl; [reflexivity|].
  unfold mbind, M_bind.
  destruct (ImageProcessor.processImage env srcDir o fs) as [[[p|e] fs'] t];
    simpl; by rewrite ?app_nil_r.
Qed.

Lemma get_images_run q fs :
  Routes.get_images env srcDir q fs = route_cases env srcDir q fs.
Proof.
  unfold Routes.get_images, Cache.cacheMiddleware, route_cases.
  unfold try_catch at 1.
  destruct (truthy_string (filename (options_of_query q))) eqn:Hf; simpl;
    [|reflexivity].
  unfold mbind at 1. unfold M_bind at 1. rewrite checkCache_run.
  destruct (found env fs _); simpl.
  - rewrite cachedFilePath_truthy. reflexivity.
  - rewrite handler_run.
    destruct (handler_cases _ _ _ fs) as [[[r|e] fs'] t] eqn:Hh; simpl;
      [reflexivity|].
    exfalso. revert Hh. unfold handler_cases.
    repeat case_match; discriminate.
Qed.

End Runs.

(** ** The order of the steps of a request *)

(** C3, as stated, fails: a request with an invalid dimension for an absent
    source is answered 404, and a request for an absent source is served its
    cached artifact when there is one. *)
Lemma C3_counterexample :
  (bad_dimensions (options_of_query q_ghost_bad) = true
   /\ found healthy source_only (inputPath app "ghost.jpg") = false
   /\ outcome (Routes.get_images healthy app q_ghost_bad source_only)
      = Return (Send 404 "Image 'ghost.jpg' not found"))
  /\ (found healthy ghost_cached (inputPath app "ghost.jpg") = false
      /\ outcome (Routes.get_images healthy app q_ghost ghost_cached)
         = Return (SendFile ghost_artifact)).
Proof. repeat split; vm_compute; reflexivity. Qed.

(** C3, amended. The steps of a request come in this order: the missing
    file name is rejected first; then the cache is consulted, and a hit for a
    request with valid dimensions is served without looking at the source;
    on a miss the source is looked up (404 when absent, whatever the
    dimensions are), then the dimensions are validated (400), and only then
    the transformer runs. *)
Theorem C3_precedence (env : Env) (srcDir : string) (q : Query)
    (fs : gmap string Node) :
  let o := options_of_query q in
  let cached := cachedFilePath srcDir o in
  let inP := inputPath srcDir (filename o) in
  let r := Routes.get_images env srcDir q fs in
  (truthy_string (filename o) = false ->
   r = (Return (missing_filename), fs, []))
  /\ (truthy_string (filename o) = true ->
      found env fs cached = true -> bad_dimensions o = false ->
      r = (Return (SendFile cached), fs, [ExistsSync cached]))
  /\ (truthy_string (filename o) = true ->
      found env fs cached = false -> found env fs inP = false ->
      r = (Return (source_not_found (filename o)), fs,
           [ExistsSync cached; Access inP]))
  /\ (truthy_string (filename o) = true ->
      found env fs cached = false -> found env fs inP = true ->
      bad_dimensions o = true ->
      r = (Return invalid_dimension, fs, [ExistsSync cached; Access inP]))
  /\ (truthy_string (filename o) = true ->
      found env fs cached = false -> found env fs inP = true ->
      bad_dimensions o = false ->
      exists t, events r
                = ExistsSync cached :: Access inP :: CallProcessImage o :: t).
Proof.
  intros o cached inP r. subst r. rewrite get_images_run.
  unfold route_cases, handler_cases, bad_dimensions.
  fold o. fold cached. fold inP.
  split; [|split; [|split; [|split]]].
  - by intros ->.
  - by intros -> -> _.
  - by intros -> -> ->.
  - by intros -> -> -> ->.
  - intros -> -> -> ->. simpl.
    destruct (processImage_marks env srcDir o fs) as [t Ht].
    destruct (ImageProcessor.processImage env srcDir o fs) as [[[p|e] fs'] t'];
      simpl in *; subst t'; by eexists.
Qed.

Lemma C3_precedence_witness :
  truthy_string (filename (options_of_query q_ghost_bad)) = true
  /\ found healthy source_only
       (cachedFilePath app (options_of_query q_ghost_bad)) = false
  /\ found healthy source_only (inputPath app "ghost.jpg") = false
  /\ Routes.get_images healthy app q_ghost_bad source_only
     = (Return (source_not_found "ghost.jpg"), source_only,
        [ExistsSync (cachedFilePath app (options_of_query q_ghost_bad));
         Access (inputPath app "ghost.jpg")]).
Proof.
  assert (H1 : truthy_string (filename (options_of_query q_ghost_bad)) = true)
    by reflexivity.
  assert (H2 : found healthy source_only
                 (cachedFilePath app (options_of_query q_ghost_bad)) = false)
    by (vm_compute; reflexivity).
  assert (H3 : found healthy source_only
                 (inputPath app (filename (options_of_query q_ghost_bad)))
               = false)
    by (vm_compute; reflexivity).
  split; [exact H1|]. split; [exact H2|]. split; [exact H3|].
  exact (proj1 (proj2 (proj2
           (C3_precedence healthy app q_ghost_bad source_only))) H1 H2 H3).
Defined.

(** ** Validation and the cache *)

(** C4 fails on the code. After a request for [sample.jpg] without
    dimensions, the artifact [sample.jpg] is in the output directory; the
    request [width=notanumber] then derives that same key (NaN is falsy, so
    the key has no dimension suffix), hits the cache, and is served the file
    instead of being rejected. *)
Theorem C4_cache_hit_skips_validation :
  width (options_of_query q_sample_bad) = Some NaN
  /\ bad_dimensions (options_of_query q_sample_bad) = true
  /\ found healthy source_only (inputPath app "sample.jpg") = true
  /\ outcome (Routes.get_images healthy app q_plain source_only)
     = Return (SendFile artifact_plain)
  /\ outcome
       (Routes.get_images healthy app q_sample_bad
          (final_fs (Routes.get_images healthy app q_plain source_only)))
     = Return (SendFile artifact_plain)
  /\ events
       (Routes.get_images healthy app q_sample_bad
          (final_fs (Routes.get_images healthy app q_plain source_only)))
     = [ExistsSync artifact_plain]
  /\ outcome (Routes.get_images healthy app q_sample_bad source_only)
     = Return invalid_dimension.
Proof. repeat split; vm_compute; reflexivity. Qed.



(** ** Transform, then lookup *)

Lemma found_present env fs p node :
  probe_fault env p = Healthy -> fs !! p = Some node -> found env fs p = true.
Proof.
  intros Hh Hp. unfold found, present. rewrite Hh.
  apply bool_decide_eq_true. by eexists.
Qed.

(** C6. The path [processImage] writes is the path [checkCache] probes.
    Hence, once [processImage] has returned, [checkCache] on the same
    options reports the path it returned, and the same request is answered
    from the cache: one probe, no call of the transformer, no write. *)
Theorem C6_transform_then_hit (env : Env) (srcDir : string)
    (o : ImageProcessingOptions) (fs fs' : gmap string Node)
    (p : string) (t : list Event) :
  ImageProcessor.processImage env srcDir o fs = (Return p, fs', t) ->
  probe_fault env p = Healthy ->
  p = outputPath srcDir o
  /\ outputPath srcDir o = cachedFilePath srcDir o
  /\ Cache.checkCache env srcDir o fs' = (Return (Some p), fs', [ExistsSync p])
  /\ (forall q, options_of_query q = o -> truthy_string (filename o) = true ->
      Routes.get_images env srcDir q fs'
      = (Return (SendFile p), fs', [ExistsSync p])).
Proof.
  intros Hrun Hhealthy.
  destruct (processImage_success env srcDir o fs p fs' t Hrun)
    as (Hp & [bytes Hfile] & _).
  assert (Hc : cachedFilePath srcDir o = p) by (by rewrite same_path).
  assert (Hfound : found env fs' (cachedFilePath srcDir o) = true).
  { rewrite Hc. eapply found_present; eauto. }
  split; [exact Hp|]. split; [by rewrite same_path|]. split.
  - by rewrite checkCache_run, Hfound, Hc.
  - intros q Hq Hf. rewrite get_images_run. unfold route_cases.
    rewrite Hq, Hf, Hfound, Hc. reflexivity.
Qed.

Lemma C6_transform_then_hit_witness :
  outcome (ImageProcessor.processImage healthy app sample_300x200 source_only)
  = Return artifact_300x200
  /\ probe_fault healthy artifact_300x200 = Healthy
  /\ Routes.get_images healthy app q_sample
       (final_fs (ImageProcessor.processImage healthy app sample_300x200
                    source_only))
     = (Return (SendFile artifact_300x200),
        final_fs (ImageProcessor.processImage healthy app sample_300x200
                    source_only),
        [ExistsSync artifact_300x200]).
Proof.
  set (r := ImageProcessor.processImage healthy app sample_300x200
              source_only).
  assert (H1 : r = (Return artifact_300x200, final_fs r, events r))
    by (vm_compute; reflexivity).
  assert (H2 : probe_fault healthy artifact_300x200 = Healthy)
    by reflexivity.
  split; [by rewrite H1|]. split; [exact H2|].
  exact (proj2 (proj2 (proj2
           (C6_transform_then_hit healthy app sample_300x200 source_only
              (final_fs r) artifact_300x200 (events r) H1 H2)))
           q_sample eq_refl eq_refl).
Defined.

(** ** Failures of the transformer *)

(** C8, as stated, fails: with the input file absent and the output
    directory impossible to create, the transformer fails with the
    directory error, not with the source-not-found error. And when it does
    fail for the missing source, the error is the one of every processing
    failure, with the cause in its text. *)
Lemma C8_counterexample :
  found no_mkdir ∅ (inputPath app "ghost.jpg") = false
  /\ outcome (ImageProcessor.processImage no_mkdir app ghost_300x200 ∅)
     = Throw (processing_failed
                (mkdir_failed "Error: EACCES: permission denied, mkdir"))
  /\ outcome (ImageProcessor.processImage no_mkdir app ghost_300x200 ∅)
     <> Throw (processing_failed
                 (input_not_found (inputPath app "ghost.jpg")))
  /\ outcome (ImageProcessor.processImage healthy app ghost_300x200 ∅)
     = Throw "Error: Failed to process image: Error: Input file not found: /srv/app/images/ghost.jpg".
Proof.
  split; [vm_compute; reflexivity|].
  split; [vm_compute; reflexivity|].
  split; [vm_compute; discriminate|vm_compute; reflexivity].
Qed.

(** C8, amended. Once the output directory exists or has been created,
    the explicit existence check of the input path decides: when it fails
    the transformer fails with its source-not-found error and the codec is
    not invoked; when it succeeds the codec is invoked, and a failure is
    the codec's. The source-not-found error is raised inside the
    transformer's own [try] block and reaches the caller as a processing
    failure whose text names the cause; that text differs from the one of
    a directory-creation failure. *)
Theorem C8_source_check (env : Env) (srcDir : string)
    (o : ImageProcessingOptions) (fs fs1 : gmap string Node)
    (t1 : list Event) :
  let inP := inputPath srcDir (filename o) in
  let r := ImageProcessor.processImage env srcDir o fs in
  ImageProcessor.ensureOutputFolderExists env srcDir fs = (Return tt, fs1, t1) ->
  (forall e, probe_fault env inP <> Loud e) ->
  (found env fs1 inP = false ->
   r = (Throw (processing_failed (input_not_found inP)), fs1,
        CallProcessImage o :: t1 ++ [ExistsSync inP])
   /\ codec_invoked (events r) = false)
  /\ (found env fs1 inP = true ->
      codec_invoked (events r) = true
      /\ match codec env fs1 (ImageProcessor.build_pipeline inP o)
                  (outputPath srcDir o) with
         | Encoded _ => outcome r = Return (outputPath srcDir o)
         | Rejected e _ => outcome r = Throw (processing_failed e)
         end)
  /\ (forall cause,
        processing_failed (input_not_found inP)
        <> processing_failed (mkdir_failed cause)).
Proof.
  intros inP r Hens Hquiet. subst r.
  rewrite processImage_run. unfold processImage_cases.
  rewrite ensure_run in Hens.
  pose proof (ensure_no_codec env srcDir fs) as [Hnc _].
  rewrite Hens in *. unfold events in Hnc. simpl in Hnc.
  unfold transform_cases. fold inP.
  split; [|split].
  - intros Hnf. rewrite Hnf.
    destruct (probe_fault env inP) eqn:Hp;
      [| |exfalso; by eapply Hquiet].
    all: split; [reflexivity|].
    all: unfold events, codec_invoked; simpl; rewrite existsb_app;
      fold (codec_invoked t1); by rewrite Hnc.
  - intros Hf. rewrite Hf.
    destruct (probe_fault env inP) eqn:Hp;
      [| |exfalso; by eapply Hquiet].
    all: destruct (codec env fs1 _ _) as [b|e [b|]];
      unfold events, outcome, codec_invoked; simpl; rewrite existsb_app;
      simpl; by rewrite orb_true_r.
  - intros cause. unfold processing_failed, input_not_found, mkdir_failed.
    simpl. discriminate.
Qed.

Lemma C8_source_check_witness :
  ImageProcessor.ensureOutputFolderExists healthy app output_dir_only
  = (Return tt, output_dir_only,
     [ExistsSync (ImageProcessor.outputFolder app)])
  /\ found healthy output_dir_only (inputPath app "ghost.jpg") = false
  /\ ImageProcessor.processImage healthy app ghost_300x200 output_dir_only
     = (Throw (processing_failed
                 (input_not_found (inputPath app "ghost.jpg"))),
        output_dir_only,
        CallProcessImage ghost_300x200
        :: [ExistsSync (ImageProcessor.outputFolder app)]
           ++ [ExistsSync (inputPath app "ghost.jpg")]).
Proof.
  assert (H1 : ImageProcessor.ensureOutputFolderExists healthy app
                 output_dir_only
               = (Return tt, output_dir_only,
                  [ExistsSync (ImageProcessor.outputFolder app)]))
    by (vm_compute; reflexivity).
  assert (H2 : forall e,
             probe_fault healthy (inputPath app (filename ghost_300x200))
             <> Loud e) by (intros e; discriminate).
  assert (H3 : found healthy output_dir_only
                 (inputPath app (filename ghost_300x200)) = false)
    by (vm_compute; reflexivity).
  split; [exact H1|]. split; [exact H3|].
  exact (proj1 (proj1 (C8_source_check healthy app ghost_300x200
                         output_dir_only output_dir_only _ H1 H2) H3)).
Defined.




(** ** Storage errors during the lookup *)

(** C10. A storage error during the probe of the cached path, swallowed
    by the runtime or raised to [checkCache], has the effect of an absent
    key: [checkCache] reports a miss, nothing is surfaced, and the
    middleware hands the request to the route, where a valid request for an
    existing source reaches the transformer. *)
Theorem C10_probe_error_is_miss (env : Env) (srcDir : string) (q : Query)
    (fs : gmap string Node) :
  let o := options_of_query q in
  let cached := cachedFilePath srcDir o in
  probe_fault env cached <> Healthy \/ fs !! cached = None ->
  Cache.checkCache env srcDir o fs = (Return None, fs, [ExistsSync cached])
  /\ (truthy_string (filename o) = true ->
      Routes.get_images env srcDir q fs
      = match Routes.handler env srcDir q (Some o) fs with
        | (r, fs', t) => (r, fs', ExistsSync cached :: t)
        end)
  /\ (truthy_string (filename o) = true ->
      found env fs (inputPath srcDir (filename o)) = true ->
      bad_dimensions o = false ->
      transformer_invoked (events (Routes.get_images env srcDir q fs)) = true).
Proof.
  intros o cached Hmiss.
  assert (Hnf : found env fs cached = false).
  { unfold found, present. destruct Hmiss as [Hfault|Habsent].
    - by destruct (probe_fault env cached).
    - destruct (probe_fault env cached); try reflexivity.
      apply bool_decide_eq_false. rewrite Habsent. by intros [? ?]. }
  rewrite checkCache_run, get_images_run, handler_run.
  unfold route_cases. fold o. fold cached. clearbody o. subst cached.
  rewrite Hnf.
  split; [reflexivity|]. split.
  - by intros ->.
  - intros Hf Hsrc Hdims. rewrite Hf. simpl negb. cbv iota.
    unfold handler_cases. unfold bad_dimensions in Hdims.
    rewrite Hf, Hsrc, Hdims. simpl negb. cbv iota.
    destruct (processImage_marks env srcDir o fs) as [t Ht].
    unfold events in *.
    destruct (ImageProcessor.processImage env srcDir o fs) as [[[p|e] fs'] t'];
      simpl in *; by subst t'.
Qed.

Lemma C10_probe_error_is_miss_witness :
  with_artifact !! cachedFilePath app (options_of_query q_sample)
  = Some (File "resized")
  /\ probe_fault flaky (cachedFilePath app (options_of_query q_sample))
     = Silent
  /\ Cache.checkCache flaky app (options_of_query q_sample) with_artifact
     = (Return None, with_artifact,
        [ExistsSync (cachedFilePath app (options_of_query q_sample))])
  /\ transformer_invoked
       (events (Routes.get_images flaky app q_sample with_artifact))
     = true.
Proof.
  assert (H0 : probe_fault flaky
                 (cachedFilePath app (options_of_query q_sample)) <> Healthy
               \/ with_artifact
                  !! cachedFilePath app (options_of_query q_sample) = None)
    by (left; vm_compute; discriminate).
  assert (H1 : truthy_string (filename (options_of_query q_sample)) = true)
    by reflexivity.
  assert (H2 : found flaky with_artifact
                 (inputPath app (filename (options_of_query q_sample)))
               = true)
    by (vm_compute; reflexivity).
  assert (H3 : bad_dimensions (options_of_query q_sample) = false)
    by reflexivity.
  destruct (C10_probe_error_is_miss flaky app q_sample with_artifact H0)
    as (Hc & _ & Ht).
  split; [vm_compute; reflexivity|]. split; [vm_compute; reflexivity|].
  split; [exact Hc|exact (Ht H1 H2 H3)].
Defined.

(** * Further properties of the code *)

(** ** The output directory *)

(** X1. [ensureOutputFolderExists] removes nothing and changes nothing that is
    there, the output directory apart; when it returns the directory is
    there; when the probe finds the directory it does nothing but probe;
    and when it throws after the probe, the error is the wrapped cause of
    the failed [mkdir]. *)
Theorem ensureOutputFolderExists_effect (env : Env) (srcDir : string)
    (fs : gmap string Node) :
  (forall p n, p <> ImageProcessor.outputFolder srcDir ->
     fs !! p = Some n ->
     final_fs (ImageProcessor.ensureOutputFolderExists env srcDir fs) !! p
     = Some n)
  /\ (forall p, is_Some (fs !! p) ->
       is_Some (final_fs (ImageProcessor.ensureOutputFolderExists env srcDir
                            fs) !! p))
  /\ (outcome (ImageProcessor.ensureOutputFolderExists env srcDir fs)
      = Return tt ->
      is_Some (final_fs (ImageProcessor.ensureOutputFolderExists env srcDir fs)
               !! ImageProcessor.outputFolder srcDir))
  /\ (found env fs (ImageProcessor.outputFolder srcDir) = true ->
      ImageProcessor.ensureOutputFolderExists env srcDir fs
      = (Return tt, fs, [ExistsSync (ImageProcessor.outputFolder srcDir)]))
  /\ (forall e,
        outcome (ImageProcessor.ensureOutputFolderExists env srcDir fs)
        = Throw e ->
        probe_fault env (ImageProcessor.outputFolder srcDir) = Loud e
        \/ exists cause,
             mkdir_error env (ImageProcessor.outputFolder srcDir) = Some cause
             /\ e = "Error: Failed to create output directory: " +:+ cause
             /\ events (ImageProcessor.ensureOutputFolderExists env srcDir fs)
                = [ExistsSync (ImageProcessor.outputFolder srcDir);
                   Mkdir (ImageProcessor.outputFolder srcDir)]).
Proof.
  rewrite ensure_run.
  split.
  { intros p n Hp Hn. by rewrite ensure_frame. }
  unfold ensure_cases, found, present, outcome, final_fs, events, mkdir_failed.
  set (out := ImageProcessor.outputFolder srcDir).
  assert (Hkeep : forall p, is_Some (fs !! p) ->
                    is_Some (<[out := Directory]> fs !! p)).
  { intros p Hp. rewrite lookup_insert. by case_decide; [eexists|]. }
  destruct (probe_fault env out) eqn:Hp; simpl.
  - destruct (bool_decide _) eqn:Hb; simpl.
    + apply bool_decide_eq_true in Hb. split_and!; try done.
    + destruct (mkdir_error env out) as [cause|]; simpl.
      * split_and!; try done.
        intros e [= <-]. right. by exists cause.
      * split_and!; try done.
        intros _. rewrite lookup_insert_eq. by eexists.
  - destruct (mkdir_error env out) as [cause|]; simpl.
    + split_and!; try done.
      intros e [= <-]. right. by exists cause.
    + split_and!; try done.
      intros _. rewrite lookup_insert_eq. by eexists.
  - split_and!; try done. intros e' [= <-]. by left.
Qed.

Lemma ensureOutputFolderExists_effect_witness :
  found healthy output_dir_only (ImageProcessor.outputFolder app) = true
  /\ ImageProcessor.ensureOutputFolderExists healthy app output_dir_only
     = (Return tt, output_dir_only,
        [ExistsSync (ImageProcessor.outputFolder app)]).
Proof.
  assert (H : found healthy output_dir_only (ImageProcessor.outputFolder app)
              = true) by (vm_compute; reflexivity).
  split; [exact H|].
  exact (proj1 (proj2 (proj2 (proj2
           (ensureOutputFolderExists_effect healthy app output_dir_only))))
           H).
Defined.

(** ** Probes *)

(** X2. [imageExists] answers for every file name: it never rejects and never
    writes, and it answers [true] exactly when the storage answers
    normally and the path under the input directory is there. *)
Theorem imageExists_answers (env : Env) (srcDir filename : string)
    (fs : gmap string Node) :
  exists b,
    ImageProcessor.imageExists env srcDir filename fs
    = (Return b, fs, [Access (inputPath srcDir filename)])
    /\ (b = true <->
        probe_fault env (inputPath srcDir filename) = Healthy
        /\ is_Some (fs !! inputPath srcDir filename)).
Proof.
  rewrite imageExists_run. eexists. split; [reflexivity|].
  unfold found, present.
  destruct (probe_fault env (inputPath srcDir filename)).
  - rewrite bool_decide_eq_true.
    split; [intros H; by split|intros [_ H]; exact H].
  - split; [discriminate|intros [? _]; discriminate].
  - split; [discriminate|intros [? _]; discriminate].
Qed.

(** X3. [checkCache] is a read-only probe that never throws, and a path it
    reports is the derived one and is there. *)
Theorem checkCache_sound (env : Env) (srcDir : string)
    (o : ImageProcessingOptions) (fs : gmap string Node) :
  exists res,
    Cache.checkCache env srcDir o fs
    = (Return res, fs, [ExistsSync (cachedFilePath srcDir o)])
    /\ (forall p, res = Some p ->
          p = cachedFilePath srcDir o
          /\ probe_fault env p = Healthy
          /\ is_Some (fs !! p))
    /\ (res = None <->
        ~ (probe_fault env (cachedFilePath srcDir o) = Healthy
           /\ is_Some (fs !! cachedFilePath srcDir o))).
Proof.
  rewrite checkCache_run. eexists. split; [reflexivity|].
  unfold found, present.
  destruct (probe_fault env (cachedFilePath srcDir o)) eqn:Hp.
  - destruct (bool_decide _) eqn:Hb.
    + apply bool_decide_eq_true in Hb. split.
      * intros p [= <-]. by rewrite Hp.
      * split; [discriminate|]. intros Hn. exfalso. by apply Hn.
    + apply bool_decide_eq_false in Hb. split; [discriminate|].
      split; [|done]. intros _ [_ Hs]. by apply Hb.
  - split; [discriminate|]. split; [|done]. by intros _ [? _].
  - split; [discriminate|]. split; [|done]. by intros _ [? _].
Qed.

(** ** The transformer *)

(** X4. [processImage] resolves exactly when the output directory is ready,
    the input path is found and the codec resolves; it then returns the
    derived path, where the artifact holds the bytes the codec produced,
    and nothing else has changed since the directory step. *)
Theorem processImage_resolves_iff (env : Env) (srcDir : string)
    (o : ImageProcessingOptions) (fs : gmap string Node) :
  (forall p fs' t,
     ImageProcessor.processImage env srcDir o fs = (Return p, fs', t) ->
     exists fs1 t1 bytes,
       ImageProcessor.ensureOutputFolderExists env srcDir fs
       = (Return tt, fs1, t1)
       /\ found env fs1 (inputPath srcDir (filename o)) = true
       /\ codec env fs1
            (ImageProcessor.build_pipeline (inputPath srcDir (filename o)) o)
            (outputPath srcDir o) = Encoded bytes
       /\ p = outputPath srcDir o
       /\ fs' = <[outputPath srcDir o := File bytes]> fs1)
  /\ (forall fs1 t1 bytes,
        ImageProcessor.ensureOutputFolderExists env srcDir fs
        = (Return tt, fs1, t1) ->
        found env fs1 (inputPath srcDir (filename o)) = true ->
        codec env fs1
          (ImageProcessor.build_pipeline (inputPath srcDir (filename o)) o)
          (outputPath srcDir o) = Encoded bytes ->
        outcome (ImageProcessor.processImage env srcDir o fs)
        = Return (outputPath srcDir o)
        /\ final_fs (ImageProcessor.processImage env srcDir o fs)
           = <[outputPath srcDir o := File bytes]> fs1).
Proof.
  rewrite processImage_run, ensure_run. unfold processImage_cases.
  split.
  - intros p fs' t.
    destruct (ensure_cases env srcDir fs) as [[[[]|e] fs1] t1];
      [|discriminate].
    unfold transform_cases. intros H.
    destruct (probe_fault env (inputPath srcDir (filename o))) eqn:Hp;
      [| |discriminate].
    all: destruct (found env fs1 (inputPath srcDir (filename o))) eqn:Hf;
      [|discriminate].
    all: destruct (codec env fs1 _ _) as [b|e [b|]] eqn:Hc;
      try discriminate.
    all: injection H as <- <- <-.
    all: exists fs1, t1, b; split_and!; done.
  - intros fs1 t1 bytes -> Hf Hc. unfold transform_cases.
    rewrite Hf, Hc.
    destruct (probe_fault env (inputPath srcDir (filename o))) eqn:Hp;
      try (split; reflexivity).
    unfold found in Hf. rewrite Hp in Hf. discriminate.
Qed.

Lemma processImage_resolves_iff_witness :
  ImageProcessor.ensureOutputFolderExists healthy app ghost_ready
  = (Return tt, ghost_ready, [ExistsSync (ImageProcessor.outputFolder app)])
  /\ found healthy ghost_ready (inputPath app "ghost.jpg") = true
  /\ outcome (ImageProcessor.processImage healthy app ghost_300x200
               ghost_ready)
     = Return (outputPath app ghost_300x200).
Proof.
  assert (H1 : ImageProcessor.ensureOutputFolderExists healthy app ghost_ready
               = (Return tt, ghost_ready,
                  [ExistsSync (ImageProcessor.outputFolder app)]))
    by (vm_compute; reflexivity).
  assert (H2 : found healthy ghost_ready
                 (inputPath app (filename ghost_300x200)) = true)
    by (vm_compute; reflexivity).
  assert (H3 : codec healthy ghost_ready
                 (ImageProcessor.build_pipeline
                    (inputPath app (filename ghost_300x200)) ghost_300x200)
                 (outputPath app ghost_300x200) = Encoded "resized")
    by (vm_compute; reflexivity).
  split; [exact H1|]. split; [exact H2|].
  exact (proj1 (proj2 (processImage_resolves_iff healthy app ghost_300x200
                         ghost_ready) _ _ _ H1 H2 H3)).
Defined.

Lemma processImage_keeps (env : Env) (srcDir : string)
    (o : ImageProcessingOptions) (fs : gmap string Node) (p : string) :
  is_Some (fs !! p) ->
  is_Some (final_fs (ImageProcessor.processImage env srcDir o fs) !! p).
Proof.
  intros Hp. rewrite processImage_run. unfold processImage_cases.
  assert (H1 : is_Some (final_fs (ensure_cases env srcDir fs) !! p)).
  { unfold ensure_cases.
    destruct (probe_fault env (ImageProcessor.outputFolder srcDir)),
      (found env fs (ImageProcessor.outputFolder srcDir)),
      (mkdir_error env (ImageProcessor.outputFolder srcDir));
      unfold final_fs; simpl; try exact Hp.
    all: rewrite lookup_insert; case_decide; [by eexists|exact Hp]. }
  destruct (ensure_cases env srcDir fs) as [[[[]|e] fs1] t1];
    unfold final_fs in *; simpl in H1; [|exact H1].
  unfold transform_cases.
  destruct (probe_fault env (inputPath srcDir (filename o)));
    [destruct (found env fs1 _);
     [destruct (codec env fs1 _ _) as [b|e [b|]]|]
    |destruct (found env fs1 _);
     [destruct (codec env fs1 _ _) as [b|e [b|]]|]
    |]; simpl; try exact H1.
  all: rewrite lookup_insert; case_decide; [by eexists|exact H1].
Qed.

Lemma processImage_frame (env : Env) (srcDir : string)
    (o : ImageProcessingOptions) (fs : gmap string Node) (p : string) :
  p <> ImageProcessor.outputFolder srcDir ->
  p <> outputPath srcDir o ->
  final_fs (ImageProcessor.processImage env srcDir o fs) !! p = fs !! p.
Proof.
  intros Hp Hne. rewrite processImage_run. unfold processImage_cases.
  pose proof (ensure_frame env srcDir fs p Hp) as Hframe.
  destruct (ensure_cases env srcDir fs) as [[[[]|e] fs1] t1];
    unfold final_fs in *; simpl in Hframe; [|exact Hframe].
  unfold transform_cases.
  destruct (probe_fault env (inputPath srcDir (filename o)));
    [destruct (found env fs1 _);
     [destruct (codec env fs1 _ _) as [b|e [b|]]|]
    |destruct (found env fs1 _);
     [destruct (codec env fs1 _ _) as [b|e [b|]]|]
    |]; simpl; rewrite ?lookup_insert_ne by congruence; exact Hframe.
Qed.

(** X5. [processImage] never removes a path: what was there before a run is
    there after it, whether the run resolves or throws. *)
Theorem processImage_keeps_paths (env : Env) (srcDir : string)
    (o : ImageProcessingOptions) (fs : gmap string Node) (p : string) :
  is_Some (fs !! p) ->
  is_Some (final_fs (ImageProcessor.processImage env srcDir o fs) !! p).
Proof. apply processImage_keeps. Qed.

Lemma processImage_keeps_paths_witness :
  is_Some (source_only !! "/srv/app/images/sample.jpg")
  /\ is_Some (final_fs (ImageProcessor.processImage disk_full app
                         sample_300x200 source_only)
             !! "/srv/app/images/sample.jpg").
Proof.
  assert (H : is_Some (source_only !! "/srv/app/images/sample.jpg"))
    by (exists (File "original"); vm_compute; reflexivity).
  split; [exact H|].
  exact (processImage_keeps_paths disk_full app sample_300x200 source_only
           _ H).
Defined.

(** ** The route *)


(** X7. A request never removes a path, and what is there, other than the
    output directory and the derived artifact path, stays as it is: the
    source images and the other artifacts are untouched. *)
Theorem get_images_frame (env : Env) (srcDir : string) (q : Query)
    (fs : gmap string Node) (p : string) :
  (is_Some (fs !! p) ->
   is_Some (final_fs (Routes.get_images env srcDir q fs) !! p))
  /\ (forall n, fs !! p = Some n ->
      p <> ImageProcessor.outputFolder srcDir ->
      p <> cachedFilePath srcDir (options_of_query q) ->
      final_fs (Routes.get_images env srcDir q fs) !! p = Some n).
Proof.
  rewrite get_images_run. unfold route_cases, handler_cases.
  set (o := options_of_query q). clearbody o.
  pose proof (processImage_keeps env srcDir o fs p) as Hkeep.
  pose proof (processImage_frame env srcDir o fs p) as Hframe.
  destruct (truthy_string (filename o)); simpl; [|done].
  destruct (found env fs (cachedFilePath srcDir o)); simpl; [done|].
  destruct (found env fs (inputPath srcDir (filename o))); simpl; [|done].
  destruct (_ || _); simpl; [done|].
  rewrite same_path.
  destruct (ImageProcessor.processImage env srcDir o fs)
    as [[[p'|e] fs'] t]; unfold final_fs in *; simpl in *.
  all: split; [done|]; intros n Hn H1 H2; by rewrite Hframe.
Qed.

Lemma get_images_frame_witness :
  source_only !! "/srv/app/images/sample.jpg" = Some (File "original")
  /\ "/srv/app/images/sample.jpg" <> ImageProcessor.outputFolder app
  /\ "/srv/app/images/sample.jpg"
     <> cachedFilePath app (options_of_query q_sample)
  /\ final_fs (Routes.get_images healthy app q_sample source_only)
     !! "/srv/app/images/sample.jpg"
     = Some (File "original").
Proof.
  assert (H1 : source_only !! "/srv/app/images/sample.jpg"
               = Some (File "original"))
    by (vm_compute; reflexivity).
  assert (H2 : "/srv/app/images/sample.jpg"
               <> ImageProcessor.outputFolder app)
    by (vm_compute; discriminate).
  assert (H3 : "/srv/app/images/sample.jpg"
               <> cachedFilePath app (options_of_query q_sample))
    by (vm_compute; discriminate).
  split; [exact H1|]. split; [exact H2|]. split; [exact H3|].
  exact (proj2 (get_images_frame healthy app q_sample source_only
                  "/srv/app/images/sample.jpg") _ H1 H2 H3).
Defined.

(** X8. Serving is idempotent: once a request has been answered with a file,
    the same request on the resulting file system, with the storage
    answering normally at that path, is answered with the same file by a
    single probe, and changes nothing. *)
Theorem get_images_idempotent (env : Env) (srcDir : string) (q : Query)
    (fs fs1 : gmap string Node) (p : string) (t1 : list Event) :
  Routes.get_images env srcDir q fs = (Return (SendFile p), fs1, t1) ->
  probe_fault env p = Healthy ->
  Routes.get_images env srcDir q fs1
  = (Return (SendFile p), fs1, [ExistsSync p]).
Proof.
  rewrite !get_images_run. unfold route_cases, handler_cases.
  set (o := options_of_query q). clearbody o.
  unfold missing_filename, source_not_found, invalid_dimension,
    internal_error.
  destruct (truthy_string (filename o)); simpl; [|discriminate].
  destruct (found env fs (cachedFilePath srcDir o)) eqn:Hhit; simpl.
  { intros [= <- <- <-] _. by rewrite Hhit. }
  destruct (found env fs (inputPath srcDir (filename o))); simpl;
    [|discriminate].
  destruct (_ || _); simpl; [discriminate|].
  destruct (ImageProcessor.processImage env srcDir o fs)
    as [[[p'|e] fs'] t] eqn:Hrun; simpl; [|discriminate].
  intros [= -> -> <-] Hhealthy.
  destruct (processImage_success env srcDir o fs p fs1 t Hrun)
    as (Hp & [bytes Hfile] & _).
  rewrite same_path, <- Hp.
  by rewrite (found_present env fs1 p (File bytes) Hhealthy Hfile).
Qed.

Lemma get_images_idempotent_witness :
  outcome (Routes.get_images healthy app q_sample source_only)
  = Return (SendFile artifact_300x200)
  /\ probe_fault healthy artifact_300x200 = Healthy
  /\ Routes.get_images healthy app q_sample
       (final_fs (Routes.get_images healthy app q_sample source_only))
     = (Return (SendFile artifact_300x200),
        final_fs (Routes.get_images healthy app q_sample source_only),
        [ExistsSync artifact_300x200]).
Proof.
  set (r := Routes.get_images healthy app q_sample source_only).
  assert (H1 : r = (Return (SendFile artifact_300x200), final_fs r, events r))
    by (vm_compute; reflexivity).
  assert (H2 : probe_fault healthy artifact_300x200 = Healthy)
    by reflexivity.
  split; [by rewrite H1|]. split; [exact H2|].
  exact (get_images_idempotent healthy app q_sample source_only (final_fs r)
           artifact_300x200 (events r) H1 H2).
Defined.

(** ** Key derivation on any options *)

(** X9. The key does not tell a falsy field from an absent one: a width or
    height that is zero or NaN, and an empty format, derive the key of the
    request without that field. *)
Theorem key_ignores_falsy_fields (o : ImageProcessingOptions) :
  generateCacheKey (drop_falsy o) = generateCacheKey o
  /\ generateProcessedFilename (drop_falsy o) = generateProcessedFilename o.
Proof.
  assert (H : generateCacheKey (drop_falsy o) = generateCacheKey o).
  { unfold generateCacheKey, drop_falsy. simpl.
    destruct (width o) as [[|w]|], (height o) as [[|h]|],
      (format o) as [[|c f]|]; simpl;
      try destruct (w =? 0)%Z eqn:Hw; try destruct (h =? 0)%Z eqn:Hh;
      simpl; rewrite ?Hw, ?Hh; reflexivity. }
  split; [exact H|].
  unfold generateCacheKey in H.
  unfold generateProcessedFilename, extension_of, dimensions_of. exact H.
Qed.

Example key_zero_width :
  generateCacheKey (mkOptions "sample.jpg" (Some (Num 0)) None None)
  = "sample.jpg"
  /\ generateCacheKey (mkOptions "sample.jpg" (Some NaN) (Some (Num 200)) None)
     = "sample_autox200.jpg"
  /\ generateCacheKey (mkOptions "sample.jpg" None None (Some ""))
     = "sample.jpg".
Proof. repeat split. Qed.

(** X10. Whatever the options, the key ends with a dot and a non-empty
    extension: the format when it is a non-empty string, else what follows
    the dot in the extension of the file name, else "jpg" (also for a file
    name that ends with a dot). *)
Theorem key_has_extension (o : ImageProcessingOptions) :
  exists stem e,
    generateCacheKey o = stem +:+ "." +:+ e
    /\ generateProcessedFilename o = stem +:+ "." +:+ e
    /\ e <> ""
    /\ (truthy_opt truthy_string (format o) = true -> format o = Some e)
    /\ (truthy_opt truthy_string (format o) = false ->
        (NodePath.ext (NodePath.parse (filename o)) = ""
         \/ NodePath.ext (NodePath.parse (filename o)) = ".") ->
        e = "jpg")
    /\ (truthy_opt truthy_string (format o) = false ->
        forall rest, rest <> "" ->
        NodePath.ext (NodePath.parse (filename o)) = "." +:+ rest ->
        e = rest).
Proof.
  exists (NodePath.name (NodePath.parse (filename o)) +:+ dimensions_of o),
         (extension_of o).
  assert (Hassoc : forall a b c : string, a +:+ b +:+ c = (a +:+ b) +:+ c).
  { intros a b c. induction a as [|x a IH]; [reflexivity|].
    change (String x (a +:+ b +:+ c) = String x ((a +:+ b) +:+ c)).
    by rewrite IH. }
  split; [|split].
  - unfold generateCacheKey. fold (extension_of o). fold (dimensions_of o).
    apply Hassoc.
  - unfold generateProcessedFilename. apply Hassoc.
  - assert (Hfile :
      let e := or_string (replace_dot
                 (NodePath.ext (NodePath.parse (filename o)))) "jpg" in
      e <> ""
      /\ ((NodePath.ext (NodePath.parse (filename o)) = ""
           \/ NodePath.ext (NodePath.parse (filename o)) = ".") -> e = "jpg")
      /\ (forall rest, rest <> "" ->
            NodePath.ext (NodePath.parse (filename o)) = "." +:+ rest ->
            e = rest)).
    { destruct (ParseFacts.parse_ext_form (filename o)) as [E|[rest E]];
        rewrite E; simpl.
      - split; [done|]. split; [done|]. intros rest _ Heq.
        change ("." +:+ rest) with (String "."%char rest) in Heq.
        discriminate.
      - destruct rest as [|c rest]; simpl.
        + split; [done|]. split; [done|]. intros rest Hr Heq.
          change ("." +:+ rest) with (String "."%char rest) in Heq.
          congruence.
        + split; [done|]. split.
          * intros [Heq|Heq]; discriminate.
          * intros rest' _ Heq.
            change ("." +:+ rest') with (String "."%char rest') in Heq.
            injection Heq as <-. reflexivity. }
    unfold extension_of.
    destruct (format o) as [[|c f]|]; simpl.
    + destruct Hfile as (H1 & H2 & H3). split_and!; auto. intros [=].
    + split_and!; try done.
    + destruct Hfile as (H1 & H2 & H3). split_and!; auto. intros [=].
Qed.

Lemma key_has_extension_witness :
  truthy_opt truthy_string (format sample_png) = true
  /\ exists stem,
       generateCacheKey sample_png = stem +:+ "." +:+ "png".
Proof.
  split; [reflexivity|].
  destruct (key_has_extension sample_png) as (stem & e & Hk & _ & _ & Hf & _).
  exists stem. specialize (Hf eq_refl). injection Hf as <-. exact Hk.
Defined.

(** ** What [path.parse] gives to the key *)

Module ScanFacts.
Import NodePath ScanDefs.

Lemma scan_char_inv p i c st :
  p !! i = Some c -> is_slash c = false ->
  scan_inv p (S i) st -> scan_inv p i (scan_char c i st).
Proof.
  intros Hc Hns (HP & Hinv).
  assert (Hlt : i < List.length p) by (eapply lookup_lt_Some, Hc).
  split; [by rewrite ParseFacts.scan_char_startPart|].
  rewrite ParseFacts.scan_char_end, ParseFacts.scan_char_matchedSlash,
    ParseFacts.scan_char_startDot.
  destruct (end_ st) as [e|].
  - destruct Hinv as (HM & Hcur & He & Hsl & Hdot).
    split; [exact HM|]. split; [lia|]. split; [exact He|]. split.
    + intros j c' Hj Hc'. destruct (decide (j = i)) as [->|Hne].
      * congruence.
      * eapply Hsl; [|exact Hc']. lia.
    + destruct (startDot st) as [d|].
      * destruct Hdot as [Hd Hafter]. split; [lia|exact Hafter].
      * destruct (is_dot c) eqn:Hd.
        -- split; [lia|]. intros j c' Hj. apply Hdot. lia.
        -- intros j c' Hj Hc'. destruct (decide (j = i)) as [->|Hne].
           ++ congruence.
           ++ eapply Hdot; [|exact Hc']. lia.
  - destruct Hinv as [HM HD]. rewrite HD.
    split; [reflexivity|]. split; [lia|]. split; [lia|]. split.
    + intros j c' Hj Hc'. assert (j = i) as -> by lia. congruence.
    + destruct (is_dot c) eqn:Hd.
      * split; [lia|]. intros j c' Hj. lia.
      * intros j c' Hj Hc'. assert (j = i) as -> by lia. congruence.
Qed.

Lemma scan_loop_post p start k : forall st,
  start + k <= List.length p ->
  scan_inv p (start + k) st ->
  scan_post p (component_start start (scan_loop p start k st))
    (scan_loop p start k st).
Proof.
  induction k as [|k IH]; intros st Hlen Hinv; simpl.
  - destruct Hinv as (HP & Hinv). unfold scan_post, component_start.
    rewrite HP. simpl. rewrite Nat.add_0_r in Hinv.
    destruct (end_ st) as [e|]; [|done].
    destruct Hinv as (_ & Hcur & He & Hsl & Hdot).
    split; [lia|]. split; [exact He|]. split; [exact Hsl|].
    destruct (startDot st); [exact Hdot|done].
  - destruct (p !! (start + k)) as [c|] eqn:Hc.
    2:{ apply lookup_ge_None in Hc. lia. }
    replace (start + S k) with (S (start + k)) in Hinv by lia.
    destruct (is_slash c) eqn:Hs.
    + destruct (matchedSlash st) eqn:HM; simpl.
      * apply IH; [lia|]. destruct Hinv as (HP & Hinv).
        split; [exact HP|].
        destruct (end_ st); [|exact Hinv].
        destruct Hinv as (HM' & _). congruence.
      * destruct Hinv as (HP & Hinv).
        unfold scan_post, component_start. simpl.
        replace (start + k + 1 =? 0)%nat with false
          by (symmetry; apply Nat.eqb_neq; lia).
        destruct (end_ st) as [e|]; [|done].
        destruct Hinv as (_ & Hcur & He & Hsl & Hdot).
        split; [lia|]. split; [exact He|]. split.
        -- intros j c' Hj. apply Hsl. lia.
        -- destruct (startDot st) as [d|]; [|done].
           destruct Hdot as [Hd Hafter]. split; [lia|exact Hafter].
    + apply IH; [lia|]. by apply scan_char_inv.
Qed.

Lemma scan_init_inv p cur : scan_inv p cur scan_init.
Proof. by split. Qed.

Lemma slice_elem p a b c :
  c ∈ slice p a b -> exists i, a <= i < b /\ p !! i = Some c.
Proof.
  unfold slice. intros Hin.
  apply list_elem_of_lookup in Hin as [j Hj].
  apply lookup_take_Some in Hj as [Hj Hlt].
  rewrite lookup_drop in Hj. exists (a + j). split; [lia|exact Hj].
Qed.

Lemma chars_str l : list_ascii_of_string (str l) = l.
Proof. apply list_ascii_of_string_of_list_ascii. Qed.

Lemma separator_free_str l :
  (forall c, c ∈ l -> is_slash c = false) -> separator_free (str l) = true.
Proof.
  intros H. unfold separator_free. rewrite chars_str.
  apply forallb_forall. intros c Hc. apply negb_true_iff, H.
  by apply list_elem_of_In.
Qed.

Lemma dot_free_str l :
  (forall c, c ∈ l -> is_dot c = false) -> dot_free (str l) = true.
Proof.
  intros H. unfold dot_free. rewrite chars_str.
  apply forallb_forall. intros c Hc. apply negb_true_iff, H.
  by apply list_elem_of_In.
Qed.

(** The parts of a parsed path that the key uses. *)
Lemma finish_parts (p : list ascii) (abs : bool) (start : nat) (st : Scan) :
  ParseDefs.dot_at p st ->
  scan_post p (component_start start st) st ->
  start = (if abs then 1 else 0) ->
  separator_free (name (finish p abs st)) = true
  /\ separator_free (ext (finish p abs st)) = true
  /\ (ext (finish p abs st) = ""
      \/ exists rest,
           ext (finish p abs st) = String "."%char rest
           /\ dot_free rest = true).
Proof.
  intros Hdot Hpost Hstart. unfold finish, scan_post in *.
  destruct (end_ st) as [e|]; [|by split_and!; [..|left]].
  destruct Hpost as (Hlo & He & Hsl & Hd).
  assert (Hlo' : (if (startPart st =? 0)%nat && abs then 1 else startPart st)
                 = component_start start st).
  { unfold component_start. subst start.
    destruct (startPart st =? 0)%nat eqn:E; simpl; [|done].
    destruct abs; [done|]. by apply Nat.eqb_eq in E. }
  rewrite Hlo'. set (lo := component_start start st) in *. clearbody lo.
  assert (Hname : forall b, b <= e ->
            separator_free (str (slice p lo b)) = true).
  { intros b Hb. apply separator_free_str. intros c Hc.
    apply slice_elem in Hc as (i & Hi & Hc). eapply Hsl; [|exact Hc]. lia. }
  destruct (startDot st) as [d|] eqn:HD.
  2:{ simpl. split_and!; [by apply Hname|done|by left]. }
  destruct Hd as [Hde Hafter].
  destruct (_ || _); simpl.
  { split_and!; [by apply Hname|done|by left]. }
  split; [apply Hname; lia|]. split.
  - apply separator_free_str. intros c Hc.
    apply slice_elem in Hc as (i & Hi & Hc). eapply Hsl; [|exact Hc]. lia.
  - right. specialize (Hdot d HD).
    unfold slice. destruct (e - d) as [|n] eqn:En; [lia|].
    assert (Hlt : d < List.length p) by (eapply lookup_lt_Some, Hdot).
    pose proof (take_drop_middle p d _ Hdot) as Hmid.
    assert (Hdrop : drop d p = "."%char :: drop (S d) p).
    { rewrite <- Hmid at 1.
      by rewrite drop_app_length' by (rewrite length_take; lia). }
    rewrite Hdrop. simpl. eexists. split; [reflexivity|].
    apply dot_free_str. intros c Hc.
    apply list_elem_of_lookup in Hc as [j Hj].
    apply lookup_take_Some in Hj as [Hj Hjn].
    rewrite lookup_drop in Hj. eapply Hafter; [|exact Hj]. lia.
Qed.

Lemma parse_parts path :
  separator_free (name (parse path)) = true
  /\ separator_free (ext (parse path)) = true
  /\ (ext (parse path) = ""
      \/ exists rest,
           ext (parse path) = String "."%char rest /\ dot_free rest = true).
Proof.
  unfold parse, parse_chars.
  destruct (list_ascii_of_string path) as [|c0 p'] eqn:Hp.
  { split_and!; [done|done|by left]. }
  rewrite <- Hp. set (p := list_ascii_of_string path) in *.
  assert (Hlen : 1 <= List.length p) by (rewrite Hp; simpl; lia).
  clearbody p.
  eapply finish_parts.
  - apply ParseFacts.scan_loop_dot_at. intros d [=].
  - apply scan_loop_post; [destruct (is_slash c0); lia|].
    apply scan_init_inv.
  - reflexivity.
Qed.

End ScanFacts.

(** ** Numbers in requests and keys *)

Module NumberFacts.

Lemma all_chars_cons P c s :
  all_chars P (String c s) = P c && all_chars P s.
Proof. reflexivity. Qed.

Lemma all_chars_app P a b :
  all_chars P (a +:+ b) = all_chars P a && all_chars P b.
Proof.
  unfold all_chars. rewrite ParseFacts.chars_app. apply forallb_app.
Qed.

Lemma all_chars_weaken (P Q : ascii -> bool) s :
  (forall c, P c = true -> Q c = true) ->
  all_chars P s = true -> all_chars Q s = true.
Proof.
  intros HPQ. unfold all_chars. rewrite !forallb_forall. auto.
Qed.

Lemma pretty_N_char_digit d : is_digit (pretty_N_char d) = true.
Proof. unfold pretty_N_char. by repeat case_match. Qed.

Lemma pretty_N_go_digits x : forall s,
  all_chars is_digit s = true -> all_chars is_digit (pretty_N_go x s) = true.
Proof.
  induction (N.lt_wf_0 x) as [x _ IH]; intros s Hs.
  assert (x = 0 \/ 0 < x)%N as [->|Hx] by lia.
  - by rewrite pretty_N_go_0.
  - rewrite pretty_N_go_step by done. apply IH.
    + by apply N.div_lt.
    + by rewrite all_chars_cons, pretty_N_char_digit.
Qed.

Lemma digit_value_pretty d :
  (d < 10)%N ->
  ParseInt.digit_value (pretty_N_char d) = Some (Z.of_N d).
Proof.
  intros Hd.
  assert (d = 0 \/ d = 1 \/ d = 2 \/ d = 3 \/ d = 4 \/ d = 5 \/ d = 6
          \/ d = 7 \/ d = 8 \/ d = 9)%N as H by lia.
  repeat (destruct H as [->|H]; [reflexivity|]). by subst.
Qed.

(** Reading the digits that [pretty_N_go] printed. *)
Lemma digits_pretty_go x : forall s acc,
  (0 < x)%N ->
  exists k : nat,
    ParseInt.digits 10 (pretty_N_go x s) acc
    = ParseInt.digits 10 s
        (Some (default 0%Z acc * 10 ^ Z.of_nat k + Z.of_N x)%Z).
Proof.
  induction (N.lt_wf_0 x) as [x _ IH]; intros s acc Hx.
  rewrite pretty_N_go_step by done.
  assert (Hm : (x `mod` 10 < 10)%N) by (apply N.mod_lt; lia).
  assert (Hdm : x = (10 * (x `div` 10) + x `mod` 10)%N)
    by (apply N.div_mod; lia).
  assert (x `div` 10 = 0 \/ 0 < x `div` 10)%N as [Hy|Hy] by lia.
  - rewrite Hy, pretty_N_go_0. exists 1. simpl ParseInt.digits.
    rewrite digit_value_pretty by done.
    replace (Z.of_N (x `mod` 10) <? 10)%Z with true
      by (symmetry; apply Z.ltb_lt; lia).
    f_equal. f_equal. lia.
  - destruct (IH (x `div` 10)%N ltac:(by apply N.div_lt)
                (String (pretty_N_char (x `mod` 10)) s) acc Hy) as [k Hk].
    rewrite Hk. exists (S k). simpl ParseInt.digits.
    rewrite digit_value_pretty by done.
    replace (Z.of_N (x `mod` 10) <? 10)%Z with true
      by (symmetry; apply Z.ltb_lt; lia).
    f_equal. f_equal. rewrite Nat2Z.inj_succ, Z.pow_succ_r by lia.
    simpl default. lia.
Qed.

Lemma digit_not_special c :
  is_digit c = true ->
  ParseInt.is_white c = false
  /\ c <> "-"%char /\ c <> "+"%char /\ c <> "x"%char /\ c <> "X"%char.
Proof.
  intros H. split_and!; try (intros ->; vm_compute in H; discriminate).
  unfold is_digit in H. unfold ParseInt.is_white.
  apply andb_true_iff in H as [H1 H2].
  apply Nat.leb_le in H1. apply Nat.leb_le in H2.
  repeat (apply orb_false_iff; split); apply Nat.eqb_neq; lia.
Qed.

(** [parseInt] on the digits of a positive number. *)
Lemma parseInt_digits s x :
  all_chars is_digit s = true ->
  ParseInt.digits 10 s None = Some x ->
  ParseInt.digits 10 s None = Some x
  /\ ParseInt.skip_white s = s
  /\ ParseInt.strip_sign s = (1%Z, s)
  /\ ParseInt.strip_hex s = (10%Z, s).
Proof.
  intros Hs Hx. split; [exact Hx|].
  destruct s as [|c s]; [discriminate|].
  rewrite all_chars_cons in Hs. apply andb_true_iff in Hs as [Hc Hs].
  destruct (digit_not_special c Hc) as (Hw & Hm & Hp & _).
  split; [simpl; by rewrite Hw|]. split.
  - unfold ParseInt.strip_sign.
    destruct c as [[] [] [] [] [] [] [] []]; try reflexivity; congruence.
  - destruct s as [|c2 s].
    + unfold ParseInt.strip_hex.
      by destruct c as [[] [] [] [] [] [] [] []].
    + rewrite all_chars_cons in Hs. apply andb_true_iff in Hs as [Hc2 _].
      destruct (digit_not_special c2 Hc2) as (_ & _ & _ & Hx1 & Hx2).
      unfold ParseInt.strip_hex.
      destruct c as [[] [] [] [] [] [] [] []]; try reflexivity.
      destruct c2 as [[] [] [] [] [] [] [] []]; try reflexivity; congruence.
Qed.

Lemma pretty_positive_read p :
  all_chars is_digit (pretty (N.pos p)) = true
  /\ ParseInt.digits 10 (pretty (N.pos p)) None = Some (Z.pos p).
Proof.
  unfold pretty, pretty_N. rewrite decide_False by done. split.
  - by apply pretty_N_go_digits.
  - destruct (digits_pretty_go (N.pos p) "" None) as [k Hk]; [lia|].
    rewrite Hk. simpl. reflexivity.
Qed.

(** [parseInt] reads back what a template literal prints. *)
Lemma parseInt_pretty (z : Z) : ParseInt.parseInt (pretty z) = Num z.
Proof.
  destruct z as [|p|p].
  - reflexivity.
  - change (pretty (Z.pos p)) with (pretty (N.pos p)).
    destruct (pretty_positive_read p) as [Hd Hr].
    destruct (parseInt_digits _ _ Hd Hr) as (_ & H1 & H2 & H3).
    unfold ParseInt.parseInt. rewrite H1, H2, H3, Hr.
    reflexivity.
  - change (pretty (Z.neg p)) with ("-" +:+ pretty (N.pos p)).
    destruct (pretty_positive_read p) as [Hd Hr].
    destruct (parseInt_digits _ _ Hd Hr) as (_ & H1 & H2 & H3).
    unfold ParseInt.parseInt.
    change ("-" +:+ pretty (N.pos p)) with (String "-"%char (pretty (N.pos p))).
    change (ParseInt.skip_white (String "-"%char (pretty (N.pos p))))
      with (String "-"%char (pretty (N.pos p))).
    change (ParseInt.strip_sign (String "-"%char (pretty (N.pos p))))
      with ((-1)%Z, pretty (N.pos p)).
    lazy beta iota. rewrite H3, Hr. reflexivity.
Qed.

Lemma pretty_Z_decimal (z : Z) : all_chars is_decimal (pretty z) = true.
Proof.
  assert (Hw : forall s, all_chars is_digit s = true ->
                         all_chars is_decimal s = true).
  { intros s. apply all_chars_weaken. intros c Hc.
    unfold is_decimal. unfold is_digit in Hc. by rewrite Hc. }
  destruct z as [|p|p].
  - reflexivity.
  - apply Hw, pretty_positive_read.
  - change (pretty (Z.neg p)) with (String "-"%char (pretty (N.pos p))).
    rewrite all_chars_cons. simpl. apply Hw, pretty_positive_read.
Qed.

Lemma pretty_Z_truthy (z : Z) : truthy_string (pretty z) = true.
Proof.
  destruct z as [|p|p]; try reflexivity.
  change (pretty (Z.pos p)) with (pretty (N.pos p)).
  destruct (pretty_positive_read p) as [_ Hr].
  by destruct (pretty (N.pos p)).
Qed.

End NumberFacts.

(** X11. Dimensions written in decimal in the query are read back exactly, and
    they pass the route's validation exactly when both are positive; this
    for the integers a JavaScript number holds exactly. *)
Theorem query_dimensions_read_back (f : option string) (w h : Z)
    (fmt : option string) :
  safe_integer w -> safe_integer h ->
  width (options_of_query
           (mkQuery f (Some (number_to_string (Num w)))
              (Some (number_to_string (Num h))) fmt)) = Some (Num w)
  /\ height (options_of_query
               (mkQuery f (Some (number_to_string (Num w)))
                  (Some (number_to_string (Num h))) fmt)) = Some (Num h)
  /\ (bad_dimensions
        (options_of_query
           (mkQuery f (Some (number_to_string (Num w)))
              (Some (number_to_string (Num h))) fmt)) = false
      <-> (0 < w)%Z /\ (0 < h)%Z).
Proof.
  intros _ _.
  assert (H : forall z, parse_dimension (Some (number_to_string (Num z)))
                        = Some (Num z)).
  { intros z. unfold parse_dimension, number_to_string.
    by rewrite NumberFacts.pretty_Z_truthy, NumberFacts.parseInt_pretty. }
  unfold bad_dimensions, options_of_query.
  cbn [width height q_width q_height]. rewrite !H.
  split; [reflexivity|]. split; [reflexivity|]. simpl.
  rewrite orb_false_iff, !Z.leb_gt. reflexivity.
Qed.

Lemma query_dimensions_read_back_witness :
  safe_integer 300 /\ safe_integer (-200)
  /\ options_of_query (mkQuery (Some "sample.jpg") (Some "300")
                         (Some "-200") None)
     = mkOptions "sample.jpg" (Some (Num 300)) (Some (Num (-200))) None
  /\ width (options_of_query
              (mkQuery (Some "sample.jpg") (Some (number_to_string (Num 300)))
                 (Some (number_to_string (Num (-200)))) None))
     = Some (Num 300).
Proof.
  assert (H1 : safe_integer 300) by (unfold safe_integer; lia).
  assert (H2 : safe_integer (-200)) by (unfold safe_integer; lia).
  split; [exact H1|]. split; [exact H2|].
  split; [vm_compute; reflexivity|].
  exact (proj1 (query_dimensions_read_back (Some "sample.jpg") 300 (-200)
                  None H1 H2)).
Defined.

Module KeyFacts.

Lemma append_inv_tail a b c : a +:+ c = b +:+ c -> a = b.
Proof.
  intros H. apply (f_equal list_ascii_of_string) in H.
  rewrite !ParseFacts.chars_app in H. apply app_inv_tail in H.
  rewrite <- (string_of_list_ascii_of_string a),
    <- (string_of_list_ascii_of_string b). by rewrite H.
Qed.

Lemma append_inv_head a b c : a +:+ b = a +:+ c -> b = c.
Proof.
  induction a as [|x a IH]; [done|].
  change (String x (a +:+ b) = String x (a +:+ c) -> b = c).
  intros [= H]. by apply IH.
Qed.

(** Two strings cut at their first [x]. *)
Lemma cut_at_first (x : ascii) a1 : forall a2 b1 b2,
  all_chars (fun c => negb (bool_decide (c = x))) a1 = true ->
  all_chars (fun c => negb (bool_decide (c = x))) a2 = true ->
  a1 +:+ String x b1 = a2 +:+ String x b2 ->
  a1 = a2 /\ b1 = b2.
Proof.
  induction a1 as [|c1 a1 IH]; intros [|c2 a2] b1 b2 H1 H2.
  - by intros [= ->].
  - change (String x b1 = String c2 (a2 +:+ String x b2) -> "" = String c2 a2 /\ b1 = b2).
    intros [= <- _]. rewrite NumberFacts.all_chars_cons in H2.
    by rewrite bool_decide_eq_true_2 in H2.
  - change (String c1 (a1 +:+ String x b1) = String x b2 -> String c1 a1 = "" /\ b1 = b2).
    intros [= -> _]. rewrite NumberFacts.all_chars_cons in H1.
    by rewrite bool_decide_eq_true_2 in H1.
  - change (String c1 (a1 +:+ String x b1) = String c2 (a2 +:+ String x b2)
            -> String c1 a1 = String c2 a2 /\ b1 = b2).
    intros [= -> H].
    rewrite NumberFacts.all_chars_cons in H1, H2.
    apply andb_true_iff in H1 as [_ H1]. apply andb_true_iff in H2 as [_ H2].
    destruct (IH a2 b1 b2 H1 H2 H) as [-> ->]. done.
Qed.

Lemma or_auto_plain n :
  printed_dimension n ->
  all_chars (fun c => negb (bool_decide (c = "x"%char))) (or_auto n) = true
  /\ separator_free (or_auto n) = true.
Proof.
  destruct n as [[|z]|]; simpl; intros H; [done| |done].
  unfold or_auto. simpl. rewrite H. simpl. split.
  - apply (NumberFacts.all_chars_weaken is_decimal);
      [|apply NumberFacts.pretty_Z_decimal].
    intros c Hc. apply negb_true_iff, bool_decide_eq_false.
    intros ->. vm_compute in Hc. discriminate.
  - apply (NumberFacts.all_chars_weaken is_decimal);
      [|apply NumberFacts.pretty_Z_decimal].
    intros c Hc. apply negb_true_iff, bool_decide_eq_false.
    intros ->. vm_compute in Hc. discriminate.
Qed.

Lemma or_auto_inj n1 n2 :
  printed_dimension n1 -> printed_dimension n2 ->
  or_auto n1 = or_auto n2 -> n1 = n2.
Proof.
  assert (Hauto : forall z : Z, pretty z <> "auto").
  { intros z Hz. pose proof (NumberFacts.pretty_Z_decimal z) as Hd.
    rewrite Hz in Hd. vm_compute in Hd. discriminate. }
  destruct n1 as [[|z1]|], n2 as [[|z2]|]; simpl; try done;
    unfold or_auto; simpl; intros H1 H2; rewrite ?H1, ?H2; simpl.
  - intros H. by apply (inj pretty) in H as ->.
  - intros H. by apply Hauto in H.
  - intros H. symmetry in H. by apply Hauto in H.
Qed.

End KeyFacts.

(** X12. The key tells the sizes of one image apart: for the same file name and
    format, two requests whose dimensions are absent or truthy (and
    integers a JavaScript number holds exactly) derive the same key only if
    their widths and their heights are the same. *)
Theorem key_tells_sizes_apart (f : string) (fmt : option string)
    (w1 h1 w2 h2 : option number) :
  printed_dimension w1 -> printed_dimension h1 ->
  printed_dimension w2 -> printed_dimension h2 ->
  safe_dimension w1 -> safe_dimension h1 ->
  safe_dimension w2 -> safe_dimension h2 ->
  generateCacheKey (mkOptions f w1 h1 fmt)
  = generateCacheKey (mkOptions f w2 h2 fmt) ->
  w1 = w2 /\ h1 = h2.
Proof.
  intros Hw1 Hh1 Hw2 Hh2 _ _ _ _. unfold generateCacheKey. simpl.
  intros H. apply KeyFacts.append_inv_head, KeyFacts.append_inv_tail in H.
  assert (Ht : forall n, printed_dimension n ->
                 truthy_opt truthy_number n = match n with
                                               | Some _ => true
                                               | None => false
                                               end).
  { intros [v|]; simpl; [done|done]. }
  rewrite (Ht w1), (Ht h1), (Ht w2), (Ht h2) in H by assumption.
  assert (Hcut : "_" +:+ or_auto w1 +:+ "x" +:+ or_auto h1
                 = "_" +:+ or_auto w2 +:+ "x" +:+ or_auto h2 ->
                 w1 = w2 /\ h1 = h2).
  { intros Heq. apply KeyFacts.append_inv_head in Heq.
    change (or_auto w1 +:+ String "x"%char (or_auto h1)
            = or_auto w2 +:+ String "x"%char (or_auto h2)) in Heq.
    apply KeyFacts.cut_at_first in Heq as [Ha Hb];
      try (by apply KeyFacts.or_auto_plain).
    split; by apply KeyFacts.or_auto_inj. }
  destruct w1 as [a1|], h1 as [b1|], w2 as [a2|], h2 as [b2|];
    simpl in H; try (by apply Hcut); try discriminate; done.
Qed.

Lemma key_tells_sizes_apart_witness :
  printed_dimension (Some (Num 300)) /\ printed_dimension None
  /\ safe_dimension (Some (Num 300)) /\ safe_dimension None
  /\ generateCacheKey (mkOptions "sample.jpg" (Some (Num 300)) None None)
     = "sample_300xauto.jpg"
  /\ (Some (Num 300) = Some (Num 300) /\ @None number = None).
Proof.
  assert (H1 : printed_dimension (Some (Num 300))) by reflexivity.
  assert (H2 : printed_dimension None) by exact I.
  assert (H3 : safe_dimension (Some (Num 300)))
    by (unfold safe_dimension, safe_integer; lia).
  assert (H4 : safe_dimension None) by exact I.
  split; [exact H1|]. split; [exact H2|]. split; [exact H3|].
  split; [exact H4|]. split; [reflexivity|].
  exact (key_tells_sizes_apart "sample.jpg" None (Some (Num 300)) None
           (Some (Num 300)) None H1 H2 H1 H2 H3 H4 H3 H4 eq_refl).
Defined.

(** ** Where the folders and the artifacts are *)

Module NormalizeFacts.
Import NodePath.

Lemma split_slash_flat s : separator_free s = true -> split_slash s = [s].
Proof.
  induction s as [|c s IH]; [done|].
  unfold separator_free. simpl. intros H.
  apply andb_true_iff in H as [Hc Hs]. apply negb_true_iff in Hc.
  rewrite Hc. fold (separator_free s) in Hs. by rewrite IH.
Qed.

Lemma split_slash_segments s :
  Forall (fun seg => separator_free seg = true) (split_slash s).
Proof.
  induction s as [|c s IH]; simpl; [by repeat constructor|].
  destruct (is_slash c) eqn:Hc; [by constructor|].
  destruct (split_slash s) as [|seg segs].
  { constructor; [|done]. unfold separator_free. simpl. by rewrite Hc. }
  inversion IH as [|? ? Hseg Hsegs]; subst. constructor; [|done].
  unfold separator_free. simpl. rewrite Hc. exact Hseg.
Qed.

Lemma append_assoc (a b c : string) : a +:+ b +:+ c = (a +:+ b) +:+ c.
Proof.
  induction a as [|x a IH]; [reflexivity|].
  change (String x (a +:+ b +:+ c) = String x ((a +:+ b) +:+ c)).
  by rewrite IH.
Qed.

Lemma concat_cons sep (x y : string) l :
  String.concat sep (x :: y :: l) = x +:+ sep +:+ String.concat sep (y :: l).
Proof. reflexivity. Qed.

Lemma concat_snoc (l : list string) (x : string) :
  l <> [] ->
  String.concat "/" (l ++ [x]) = String.concat "/" l +:+ "/" +:+ x.
Proof.
  induction l as [|a l IH]; [done|]. intros _.
  destruct l as [|b l]; [reflexivity|].
  change ((a :: b :: l) ++ [x]) with (a :: b :: (l ++ [x])).
  rewrite !concat_cons.
  change (b :: l ++ [x]) with ((b :: l) ++ [x]). rewrite IH by done.
  generalize (String.concat "/" (b :: l)). intros t.
  by rewrite (append_assoc "/" t), (append_assoc a).
Qed.

Lemma split_slash_concat (l : list string) :
  l <> [] -> Forall (fun seg => separator_free seg = true) l ->
  split_slash (String.concat "/" l) = l.
Proof.
  induction l as [|a l IH]; [done|]. intros _ Hl.
  inversion Hl as [|? ? Ha Hl']; subst.
  destruct l as [|b l]; [by apply split_slash_flat|].
  rewrite concat_cons.
  change (a +:+ "/" +:+ String.concat "/" (b :: l))
    with (a +:+ String "/"%char (String.concat "/" (b :: l))).
  rewrite PathFacts.split_slash_app, split_slash_flat, IH by done.
  reflexivity.
Qed.

Lemma norm_step_normal b res seg :
  normal_segment seg -> norm_step b res seg = res ++ [seg].
Proof.
  intros (H1 & H2 & H3 & _). unfold norm_step.
  by rewrite !bool_decide_eq_false_2.
Qed.

Lemma norm_fold_normal b segs : forall res,
  Forall normal_segment segs ->
  fold_left (norm_step b) segs res = res ++ segs.
Proof.
  induction segs as [|seg segs IH]; intros res Hs; simpl.
  - by rewrite app_nil_r.
  - inversion Hs; subst. rewrite norm_step_normal, IH by done.
    by rewrite <- app_assoc.
Qed.

(** [normalizeString] keeps normal segments only. *)
Lemma norm_fold_keeps segs : forall res,
  Forall (fun seg => separator_free seg = true) segs ->
  Forall normal_segment res ->
  Forall normal_segment (fold_left (norm_step false) segs res).
Proof.
  induction segs as [|seg segs IH]; intros res Hs Hres; simpl; [done|].
  inversion Hs as [|? ? Hseg Hsegs]; subst. apply IH; [done|].
  unfold norm_step.
  destruct (bool_decide (seg = "")) eqn:E1; simpl; [done|].
  destruct (bool_decide (seg = ".")) eqn:E2; simpl; [done|].
  destruct (bool_decide (seg = "..")) eqn:E3.
  - destruct (last res) as [l|]; [|done].
    destruct (bool_decide (l = "..")); [done|].
    destruct res as [|r res] using rev_ind; [done|].
    rewrite removelast_last. by apply Forall_app in Hres as [? _].
  - apply Forall_app. split; [done|]. constructor; [|done].
    apply bool_decide_eq_false in E1, E2, E3. by split_and!.
Qed.

Lemma normalizeString_normal path :
  Forall normal_segment (normalizeString path false).
Proof.
  apply norm_fold_keeps; [apply split_slash_segments|constructor].
Qed.

(** The segments of an absolute path that is already normal. *)
Lemma normalizeString_absolute (l : list string) (b : bool) :
  Forall normal_segment l ->
  normalizeString ("/" +:+ String.concat "/" l) b = l.
Proof.
  intros Hl. unfold normalizeString.
  destruct l as [|a l]; [reflexivity|].
  change ("/" +:+ String.concat "/" (a :: l))
    with ("" +:+ String "/"%char (String.concat "/" (a :: l))).
  rewrite PathFacts.split_slash_app, split_slash_concat.
  - simpl. by rewrite norm_step_normal, norm_fold_normal
      by (by inversion Hl).
  - done.
  - eapply Forall_impl; [exact Hl|]. by intros s (_ & _ & _ & ?).
Qed.

Lemma ends_with_slash_app a b :
  b <> "" -> ends_with_slash (a +:+ b) = ends_with_slash b.
Proof.
  intros Hb. induction a as [|c a IH]; [done|].
  change (String c a +:+ b) with (String c (a +:+ b)).
  simpl. destruct (a +:+ b) eqn:E; [|exact IH].
  destruct a as [|c' a'];
    [change (b = "") in E; congruence
    |change (String c' (a' +:+ b) = "") in E; discriminate].
Qed.

Lemma ends_with_slash_flat s :
  separator_free s = true -> ends_with_slash s = false.
Proof.
  induction s as [|c s IH]; [done|].
  unfold separator_free. simpl. intros H.
  apply andb_true_iff in H as [Hc Hs]. apply negb_true_iff in Hc.
  destruct s; [exact Hc|]. by apply IH.
Qed.

Lemma join_nonempty a b :
  a <> "" -> b <> "" -> join a b = normalize (a +:+ "/" +:+ b).
Proof. by destruct a, b. Qed.

(** A normal segment joined to a normal absolute directory is its child. *)
Lemma join_child (l : list string) (seg : string) :
  l <> [] -> Forall normal_segment l -> normal_segment seg ->
  join ("/" +:+ String.concat "/" l) seg
  = ("/" +:+ String.concat "/" l) +:+ "/" +:+ seg.
Proof.
  intros Hne Hl Hseg. pose proof Hseg as (Hs1 & _ & _ & Hs4).
  rewrite join_nonempty by done.
  change ("/" +:+ String.concat "/" l)
    with (String "/"%char (String.concat "/" l)).
  unfold normalize.
  set (path := String "/"%char (String.concat "/" l) +:+ "/" +:+ seg).
  assert (Hpath : path = String "/"%char
                           (String.concat "/" l +:+ "/" +:+ seg))
    by reflexivity.
  rewrite Hpath at 1.
  assert (Habs : starts_with_slash path = true) by reflexivity.
  rewrite Habs. simpl negb.
  assert (Htrail : ends_with_slash path = false).
  { unfold path. rewrite append_assoc, ends_with_slash_app by done.
    by apply ends_with_slash_flat. }
  rewrite Htrail.
  assert (Hsegs : normalizeString path false = l ++ [seg]).
  { unfold path.
    change (String "/"%char (String.concat "/" l) +:+ "/" +:+ seg)
      with (("/" +:+ String.concat "/" l) +:+ String "/"%char seg).
    unfold normalizeString.
    rewrite PathFacts.split_slash_app, fold_left_app.
    fold (normalizeString ("/" +:+ String.concat "/" l) false).
    rewrite normalizeString_absolute, split_slash_flat by done.
    simpl. by rewrite norm_step_normal. }
  rewrite Hsegs.
  destruct (l ++ [seg]) as [|x y] eqn:E; [by destruct l|].
  rewrite <- E, concat_snoc by done.
  rewrite ParseFacts.append_empty_r. unfold path. reflexivity.
Qed.

End NormalizeFacts.

Module FolderFacts.
Import NodePath NormalizeFacts.

Lemma project_root_normal srcDir : Forall normal_segment (project_root srcDir).
Proof.
  unfold project_root.
  change (norm_step false (normalizeString srcDir false) "..")
    with (fold_left (norm_step false) [".."] (normalizeString srcDir false)).
  apply norm_fold_keeps; [by repeat constructor|].
  apply normalizeString_normal.
Qed.

Lemma constant_segments :
  normal_segment "images" /\ normal_segment "public"
  /\ normal_segment "processed".
Proof. by split_and!. Qed.

(** A folder resolved from a sub-directory of the source directory by
    ["../../"] and normal segments hangs under the project root. *)
Lemma resolve_from_sub srcDir sub rest segs :
  sub <> "" -> sub <> "." -> sub <> ".." -> split_slash sub = [sub] ->
  split_slash rest = segs -> Forall normal_segment segs ->
  resolve (srcDir +:+ String "/"%char sub)
    (String "."%char (String "."%char (String "/"%char
       (String "."%char (String "."%char (String "/"%char rest))))))
  = absolute (project_root srcDir ++ segs).
Proof.
  intros H1 H2 H3 Hsub Hrest Hsegs. unfold resolve, absolute.
  simpl starts_with_slash. change (is_slash ".") with false. cbv iota.
  f_equal. f_equal.
  change ((srcDir +:+ String "/"%char sub) +:+ "/" +:+
          String "."%char (String "."%char (String "/"%char
            (String "."%char (String "."%char (String "/"%char rest))))))
    with ((srcDir +:+ String "/"%char sub) +:+ String "/"%char
            (String "."%char (String "."%char (String "/"%char
               (".." +:+ String "/"%char rest))))).
  rewrite PathFacts.resolve_sibling by done.
  rewrite PathFacts.split_slash_app, Hrest.
  change (split_slash "..") with [".."].
  rewrite fold_left_app. simpl fold_left at 2.
  fold (project_root srcDir). by apply norm_fold_normal.
Qed.

Lemma folders srcDir :
  ImageProcessor.inputFolder srcDir
  = absolute (project_root srcDir ++ ["images"])
  /\ ImageProcessor.outputFolder srcDir
     = absolute (project_root srcDir ++ ["public"; "images"; "processed"])
  /\ Cache.outputFolder srcDir
     = absolute (project_root srcDir ++ ["public"; "images"; "processed"]).
Proof.
  destruct constant_segments as (Hi & Hp & Hd).
  unfold ImageProcessor.inputFolder, ImageProcessor.outputFolder,
    Cache.outputFolder, ImageProcessor.dirname, Cache.dirname.
  split_and!.
  - by apply (resolve_from_sub srcDir "utils" "images"); repeat constructor.
  - by apply (resolve_from_sub srcDir "utils" "public/images/processed");
      repeat constructor.
  - by apply (resolve_from_sub srcDir "middleware" "public/images/processed");
      repeat constructor.
Qed.

Lemma project_root_of (R : list string) (d : string) :
  Forall normal_segment (R ++ [d]) ->
  project_root (absolute (R ++ [d])) = R.
Proof.
  intros H. unfold project_root, absolute.
  rewrite normalizeString_absolute by done.
  unfold norm_step. simpl. rewrite last_snoc.
  apply Forall_app in H as [_ Hd]. inversion Hd as [|? ? (_ & _ & Hdd & _) _].
  rewrite bool_decide_eq_false_2 by done. apply removelast_last.
Qed.

End FolderFacts.

(** X13. The folders hang under the directory above the source directory,
    whatever that directory is called: for sources in [/R/d] the images are
    read from [/R/images] and the artifacts are kept, by both modules, in
    [/R/public/images/processed]. *)
Theorem folders_under_project_root (R : list string) (d : string) :
  Forall normal_segment (R ++ [d]) ->
  ImageProcessor.inputFolder (absolute (R ++ [d]))
  = absolute (R ++ ["images"])
  /\ ImageProcessor.outputFolder (absolute (R ++ [d]))
     = absolute (R ++ ["public"; "images"; "processed"])
  /\ Cache.outputFolder (absolute (R ++ [d]))
     = absolute (R ++ ["public"; "images"; "processed"]).
Proof.
  intros H.
  destruct (FolderFacts.folders (absolute (R ++ [d]))) as (H1 & H2 & H3).
  by rewrite H1, H2, H3, FolderFacts.project_root_of.
Qed.

Lemma folders_under_project_root_witness :
  Forall normal_segment (["srv"; "app"] ++ ["dist"])
  /\ ImageProcessor.inputFolder "/srv/app/dist" = "/srv/app/images"
  /\ Cache.outputFolder "/srv/app/dist" = "/srv/app/public/images/processed".
Proof.
  assert (H : Forall normal_segment (["srv"; "app"] ++ ["dist"])).
  { repeat constructor; discriminate. }
  destruct (folders_under_project_root ["srv"; "app"] "dist" H)
    as (H1 & _ & H3).
  split; [exact H|]. split; [exact H1|exact H3].
Defined.

Module ArtifactFacts.
Import NodePath.

Lemma separator_free_app a b :
  separator_free (a +:+ b) = separator_free a && separator_free b.
Proof.
  unfold separator_free. rewrite ParseFacts.chars_app. apply forallb_app.
Qed.

Lemma or_auto_flat n : separator_free (or_auto n) = true.
Proof.
  assert (H : forall z : Z, separator_free (pretty z) = true).
  { intros z. apply (NumberFacts.all_chars_weaken is_decimal);
      [|apply NumberFacts.pretty_Z_decimal].
    intros c Hc. apply negb_true_iff.
    destruct (is_slash c) eqn:E; [|done].
    apply ParseFacts.is_slash_true in E as ->. vm_compute in Hc.
    discriminate. }
  destruct n as [[|z]|]; unfold or_auto; try done.
  destruct (truthy_number (Num z)); [apply H|done].
Qed.

Lemma dimensions_flat o : separator_free (dimensions_of o) = true.
Proof.
  unfold dimensions_of. case_match; [|done].
  rewrite !separator_free_app, !or_auto_flat. done.
Qed.

(** The extension of a key whose format is plain holds neither separator
    nor dot, and is not empty. *)
Lemma extension_plain o :
  plain_format (format o) ->
  extension_of o <> ""
  /\ separator_free (extension_of o) = true
  /\ dot_free (extension_of o) = true.
Proof.
  intros Hfmt.
  assert (Hfile :
    let e := or_string (replace_dot (ext (parse (filename o)))) "jpg" in
    e <> "" /\ separator_free e = true /\ dot_free e = true).
  { destruct (ScanFacts.parse_parts (filename o)) as (_ & Hsep & [E|[rest [E Hd]]]).
    - by rewrite E.
    - rewrite E in Hsep |- *. simpl.
      destruct rest as [|c rest]; [done|]. simpl.
      split; [done|]. split; [|done].
      unfold separator_free in Hsep |- *. simpl in Hsep. done. }
  unfold extension_of.
  destruct (format o) as [[|c f]|]; simpl in *; [done| |done].
  by destruct Hfmt.
Qed.

Lemma key_normal o :
  plain_format (format o) -> normal_segment (generateProcessedFilename o).
Proof.
  intros Hfmt. destruct (extension_plain o Hfmt) as (He & Hes & Hed).
  destruct (ScanFacts.parse_parts (filename o)) as (Hname & _ & _).
  unfold generateProcessedFilename. cbv zeta.
  set (nm := name (parse (filename o))) in *.
  set (e := extension_of o) in *.
  set (d := dimensions_of o).
  assert (Hchars : list_ascii_of_string (nm +:+ d +:+ "." +:+ e)
    = list_ascii_of_string nm ++ list_ascii_of_string d
      ++ "."%char :: list_ascii_of_string e).
  { by rewrite !ParseFacts.chars_app. }
  assert (He' : list_ascii_of_string e <> []).
  { destruct e; [done|discriminate]. }
  unfold normal_segment. split_and!.
  - intros H. rewrite H in Hchars.
    destruct (list_ascii_of_string nm), (list_ascii_of_string d); discriminate.
  - intros H. rewrite H in Hchars. apply (f_equal List.length) in Hchars.
    rewrite !length_app in Hchars. simpl in Hchars.
    destruct (list_ascii_of_string e); [done|simpl in Hchars; lia].
  - intros H. rewrite H in Hchars.
    assert (Hlen := f_equal List.length Hchars).
    rewrite !length_app in Hlen. simpl in Hlen.
    destruct (list_ascii_of_string e) as [|c [|c' l]] eqn:E;
      [done| |simpl in Hlen; lia].
    destruct (list_ascii_of_string nm), (list_ascii_of_string d);
      simpl in Hlen; try lia.
    simpl in Hchars. injection Hchars as <-.
    unfold dot_free in Hed. rewrite E in Hed. vm_compute in Hed.
    discriminate.
  - rewrite !separator_free_app, Hname, Hes. unfold d.
    by rewrite dimensions_flat.
Qed.

Lemma output_segments_normal srcDir :
  Forall normal_segment
    (project_root srcDir ++ ["public"; "images"; "processed"]).
Proof.
  apply Forall_app. split; [apply FolderFacts.project_root_normal|].
  by repeat constructor.
Qed.

End ArtifactFacts.

(** X14. For a format that is absent or holds neither separator nor dot, the
    artifact is a direct child of the output directory, named by the key:
    the path [processImage] writes and the path [checkCache] probes are the
    output directory, a separator, and the key, and the key holds no
    separator, whatever the file name of the request. *)
Theorem artifact_in_output_folder (srcDir : string)
    (o : ImageProcessingOptions) :
  plain_format (format o) ->
  outputPath srcDir o
  = ImageProcessor.outputFolder srcDir +:+ "/" +:+ generateProcessedFilename o
  /\ cachedFilePath srcDir o
     = Cache.outputFolder srcDir +:+ "/" +:+ generateCacheKey o
  /\ separator_free (generateProcessedFilename o) = true
  /\ separator_free (generateCacheKey o) = true.
Proof.
  intros Hfmt. pose proof (ArtifactFacts.key_normal o Hfmt) as Hkey.
  assert (Hsame : generateCacheKey o = generateProcessedFilename o)
    by reflexivity.
  destruct (FolderFacts.folders srcDir) as (_ & H2 & H3).
  unfold outputPath, cachedFilePath. rewrite Hsame, H2, H3.
  unfold absolute.
  rewrite NormalizeFacts.join_child;
    [|by destruct (project_root srcDir)
     |apply ArtifactFacts.output_segments_normal|done].
  split_and!; try done; apply Hkey.
Qed.

Lemma artifact_in_output_folder_witness :
  plain_format (format (mkOptions "../../etc/passwd" None None None))
  /\ outputPath app (mkOptions "../../etc/passwd" None None None)
     = ImageProcessor.outputFolder app +:+ "/" +:+ "passwd.jpg".
Proof.
  split; [exact I|].
  exact (proj1 (artifact_in_output_folder app
                  (mkOptions "../../etc/passwd" None None None) I)).
Defined.

(** X15. A file name that is a single segment other than "." and ".." is
    looked up directly in the input directory: the path [imageExists]
    probes and [processImage] reads is the input directory, a separator,
    and the file name. *)
Theorem source_in_input_folder (srcDir filename : string) :
  normal_segment filename ->
  inputPath srcDir filename
  = ImageProcessor.inputFolder srcDir +:+ "/" +:+ filename.
Proof.
  intros Hf. destruct (FolderFacts.folders srcDir) as (H1 & _ & _).
  unfold inputPath. rewrite H1. unfold absolute.
  apply NormalizeFacts.join_child; [by destruct (project_root srcDir)| |done].
  apply Forall_app. split; [apply FolderFacts.project_root_normal|].
  by repeat constructor.
Qed.

Lemma source_in_input_folder_witness :
  normal_segment "sample.jpg"
  /\ inputPath app "sample.jpg"
     = ImageProcessor.inputFolder app +:+ "/" +:+ "sample.jpg".
Proof.
  assert (H : normal_segment "sample.jpg") by (by split_and!).
  split; [exact H|]. exact (source_in_input_folder app "sample.jpg" H).
Defined.

(** A file name with ".." segments is not confined to the input directory,
    and a format with separators is not confined to the output directory:
    [path.join] normalizes them away. *)
Example paths_outside_the_folders :
  inputPath app "../src/index.ts" = "/srv/app/src/index.ts"
  /\ outputPath app (mkOptions "sample.jpg" None None (Some "/../../../x"))
     = "/srv/app/public/x".
Proof. split; vm_compute; reflexivity. Qed.

(** ** The key and the work asked of the codec *)

(** X16. The artifact name follows the work asked of the codec: the pipeline
    resizes exactly when the key has a dimension suffix, and two requests
    for the same file name that build the same pipeline derive the same
    key. *)
Theorem pipeline_determines_key (inputPath : string)
    (o1 o2 : ImageProcessingOptions) :
  filename o1 = filename o2 ->
  ImageProcessor.build_pipeline inputPath o1
  = ImageProcessor.build_pipeline inputPath o2 ->
  generateProcessedFilename o1 = generateProcessedFilename o2
  /\ generateCacheKey o1 = generateCacheKey o2
  /\ (resize (ImageProcessor.build_pipeline inputPath o1) = None
      <-> dimensions_of o1 = "").
Proof.
  intros Hf Hp.
  assert (Hdims : dimensions_of o1 = dimensions_of o2).
  { apply (f_equal resize) in Hp. revert Hp.
    unfold ImageProcessor.build_pipeline, dimensions_of.
    destruct (truthy_opt truthy_number (width o1)
              || truthy_opt truthy_number (height o1)),
      (truthy_opt truthy_number (width o2)
       || truthy_opt truthy_number (height o2)),
      (truthy_opt truthy_string (format o1)),
      (truthy_opt truthy_string (format o2)); simpl;
      intros [=]; congruence. }
  assert (Hext : extension_of o1 = extension_of o2).
  { apply (f_equal toFormat) in Hp. revert Hp.
    unfold ImageProcessor.build_pipeline, extension_of. rewrite Hf.
    destruct (truthy_opt truthy_number (width o1)
              || truthy_opt truthy_number (height o1)),
      (truthy_opt truthy_number (width o2)
       || truthy_opt truthy_number (height o2)),
      (format o1) as [[|c1 f1]|], (format o2) as [[|c2 f2]|]; simpl;
      intros [=]; congruence. }
  assert (Hkey : generateProcessedFilename o1 = generateProcessedFilename o2).
  { unfold generateProcessedFilename. by rewrite Hf, Hdims, Hext. }
  split; [exact Hkey|]. split; [exact Hkey|].
  unfold ImageProcessor.build_pipeline, dimensions_of.
  destruct (truthy_opt truthy_number (width o1)
            || truthy_opt truthy_number (height o1)),
    (truthy_opt truthy_string (format o1)); simpl; split; done.
Qed.

Lemma pipeline_determines_key_witness :
  filename (mkOptions "sample.jpg" (Some NaN) None (Some ""))
  = filename (mkOptions "sample.jpg" None None None)
  /\ ImageProcessor.build_pipeline "/srv/app/images/sample.jpg"
       (mkOptions "sample.jpg" (Some NaN) None (Some ""))
     = ImageProcessor.build_pipeline "/srv/app/images/sample.jpg"
         (mkOptions "sample.jpg" None None None)
  /\ generateCacheKey (mkOptions "sample.jpg" (Some NaN) None (Some ""))
     = generateCacheKey (mkOptions "sample.jpg" None None None).
Proof.
  split; [reflexivity|]. split; [reflexivity|].
  exact (proj1 (proj2 (pipeline_determines_key "/srv/app/images/sample.jpg"
                         (mkOptions "sample.jpg" (Some NaN) None (Some ""))
                         (mkOptions "sample.jpg" None None None)
                         eq_refl eq_refl))).
Defined.
